(** * pedaru-vue: the selection-triggered annotation pipeline

    A shallow embedding of
    - [parseTranslationResponse] / [parseExplanationResponse] and the two
      [POST] route handlers (code_reference/src/app/api/gemini/*/route.ts),
    - [getGeminiSettings], [translateWithGemini], [explainDirectly]
      (code_reference/src/lib/settings.ts),
    - [handleContextMenu] / [closeContextMenu]
      (app/composables/useContextMenu.ts),
    together with the part of the JavaScript runtime they rely on
    ([JSON.parse], [String.prototype.trim], the three fence regexes,
    [String.prototype.replace] with a string pattern, truthiness, property
    access, the status check of [Response.json]). *)

From Stdlib Require Import List NArith ZArith Bool Lia String Ascii DecimalString.
From Stdlib Require Import SpecFloat.
Import ListNotations.

Set Warnings "-register-all".
Local Open Scope N_scope.

(** ** JavaScript strings

    A JavaScript string is a sequence of UTF-16 code units.  The code
    inspects strings code unit by code unit ([trim], regexes, the JSON
    grammar), so a string is a list of code units. *)

Definition jsstring := list N.

(** An ASCII literal as a JavaScript string.  Inside a literal the
    apostrophe stands for the double-quote character (code unit 34), so
    that JSON texts can be written down. *)
Definition cu (a : ascii) : N :=
  let n := N_of_ascii a in if n =? 39 then 34 else n.

Definition js (s : string) : jsstring := map cu (list_ascii_of_string s).

(** Exact ASCII, for texts that contain apostrophes. *)
Definition lit (s : string) : jsstring := map N_of_ascii (list_ascii_of_string s).

Definition jsstring_eqb (a b : jsstring) : bool :=
  if list_eq_dec N.eq_dec a b then true else false.

(** WhiteSpace and LineTerminator code units: what [trim] strips and what
    the regex class [\s] matches. *)
Definition is_js_space (c : N) : bool :=
  ((9 <=? c) && (c <=? 13)) || (c =? 32) || (c =? 160) || (c =? 5760)
  || ((8192 <=? c) && (c <=? 8202)) || (c =? 8232) || (c =? 8233)
  || (c =? 8239) || (c =? 8287) || (c =? 12288) || (c =? 65279).

(** JSON whitespace: tab, line feed, carriage return, space. *)
Definition is_json_ws (c : N) : bool :=
  (c =? 9) || (c =? 10) || (c =? 13) || (c =? 32).

Fixpoint skip_while (p : N -> bool) (s : jsstring) : jsstring :=
  match s with
  | [] => []
  | c :: r => if p c then skip_while p r else s
  end.

(** [String.prototype.trim], as trimStart followed by trimEnd. *)
Definition trimStart (s : jsstring) : jsstring := skip_while is_js_space s.

Fixpoint trimEnd (s : jsstring) : jsstring :=
  match s with
  | [] => []
  | c :: r =>
      match trimEnd r with
      | [] => if is_js_space c then [] else [c]
      | r' => c :: r'
      end
  end.

Definition trim (s : jsstring) : jsstring := trimEnd (trimStart s).

Fixpoint strip_prefix (p s : jsstring) : option jsstring :=
  match p, s with
  | [], _ => Some s
  | a :: p', b :: s' => if a =? b then strip_prefix p' s' else None
  | _ :: _, [] => None
  end.

(** [s.replace(/^<fence>\s*/, '')]: a match can only start at index 0, and
    [\s*] is greedy. *)
Definition replace_leading (fence s : jsstring) : jsstring :=
  match strip_prefix fence s with
  | Some r => skip_while is_js_space r
  | None => s
  end.

Definition backticks : jsstring := [96; 96; 96].

(** Does [\s*```$] match at the start of [s]?  The match has to reach the
    end of the string. *)
Definition fence_to_end (s : jsstring) : bool :=
  jsstring_eqb (skip_while is_js_space s) backticks.

(** [s.replace(/\s*```$/, '')]: the leftmost index at which the pattern
    matches is tried first; the match, which runs to the end, is removed. *)
Fixpoint replace_trailing_fence (s : jsstring) : jsstring :=
  if fence_to_end s then []
  else match s with
       | [] => []
       | c :: r => c :: replace_trailing_fence r
       end.

(** ** JSON values *)

(** A JSON number literal denotes the decimal [(-1)^neg * mant * 10^exp];
    [JSON.parse] rounds it to the nearest IEEE double.  The code only ever
    asks whether a number is truthy, that is whether the double is not
    zero. *)
Record number := Num { num_neg : bool; num_mant : N; num_exp : Z }.

Inductive value :=
| VNull
| VBool (b : bool)
| VNumber (n : number)
| VString (s : jsstring)
| VArray (l : list value)
| VObject (m : list (jsstring * value)).

(** The double nearest to [mant * 10^exp] is zero exactly when the decimal
    is at most half the least subnormal, [2^-1075] (ties go to the even
    neighbour, which is zero). *)
Definition number_is_zero (n : number) : bool :=
  (num_mant n =? 0)
  || ((num_exp n <? 0)%Z
      && (Z.of_N (num_mant n) * 2 ^ 1075 <=? 10 ^ (- num_exp n))%Z).

(** Own properties of an object created by [JSON.parse], in creation
    order.  A repeated key overwrites the earlier value in place. *)
Fixpoint obj_set (k : jsstring) (v : value) (m : list (jsstring * value))
  : list (jsstring * value) :=
  match m with
  | [] => [(k, v)]
  | (k', v') :: m' =>
      if jsstring_eqb k k' then (k, v) :: m' else (k', v') :: obj_set k v m'
  end.

Fixpoint obj_get (k : jsstring) (m : list (jsstring * value)) : option value :=
  match m with
  | [] => None
  | (k', v) :: m' => if jsstring_eqb k k' then Some v else obj_get k m'
  end.

(** ** JSON.parse *)

Inductive presult (A : Type) :=
| POk (a : A)
| PSyntax
| PFuel.
Arguments POk {A} a.
Arguments PSyntax {A}.
Arguments PFuel {A}.

Definition is_digit (c : N) : bool := (48 <=? c) && (c <=? 57).

Fixpoint scan_digits (s : jsstring) (acc : N) (cnt : Z) : N * Z * jsstring :=
  match s with
  | [] => (acc, cnt, [])
  | c :: r =>
      if is_digit c then scan_digits r (10 * acc + (c - 48)) (cnt + 1)
      else (acc, cnt, s)
  end.

(** JSONNumber: an optional minus sign; an integer part that is a single
    zero or starts with a non-zero digit; an optional fraction (a dot and
    at least one digit); an optional exponent (e or E, an optional sign,
    at least one digit). *)
Definition scan_int (s : jsstring) : option (N * jsstring) :=
  match s with
  | [] => None
  | c :: r =>
      if c =? 48 then Some (0, r)
      else if is_digit c then
        let '(m, _, r') := scan_digits r (c - 48) 0 in Some (m, r')
      else None
  end.

Definition scan_frac (m : N) (s : jsstring) : option (N * Z * jsstring) :=
  match s with
  | c :: r =>
      if c =? 46 then
        match r with
        | d :: _ => if is_digit d then Some (scan_digits r m 0) else None
        | [] => None
        end
      else Some (m, 0%Z, s)
  | [] => Some (m, 0%Z, s)
  end.

Definition scan_exp (s : jsstring) : option (Z * jsstring) :=
  match s with
  | c :: r =>
      if (c =? 101) || (c =? 69) then
        let '(neg, r1) :=
          match r with
          | sg :: r' =>
              if sg =? 45 then (true, r')
              else if sg =? 43 then (false, r') else (false, r)
          | [] => (false, r)
          end in
        match r1 with
        | d :: _ =>
            if is_digit d then
              let '(e, _, r2) := scan_digits r1 0 0 in
              Some (if neg then (- Z.of_N e)%Z else Z.of_N e, r2)
            else None
        | [] => None
        end
      else Some (0%Z, s)
  | [] => Some (0%Z, s)
  end.

Definition parse_number (s : jsstring) : option (number * jsstring) :=
  let '(neg, s1) :=
    match s with
    | c :: r => if c =? 45 then (true, r) else (false, s)
    | [] => (false, s)
    end in
  match scan_int s1 with
  | None => None
  | Some (m, s2) =>
      match scan_frac m s2 with
      | None => None
      | Some (m', k, s3) =>
          match scan_exp s3 with
          | None => None
          | Some (e, s4) => Some (Num neg m' (e - k), s4)
          end
      end
  end.

Definition hex_val (c : N) : option N :=
  if is_digit c then Some (c - 48)
  else if (97 <=? c) && (c <=? 102) then Some (c - 87)
  else if (65 <=? c) && (c <=? 70) then Some (c - 55)
  else None.

Definition hex4 (a b c d : N) : option N :=
  match hex_val a, hex_val b, hex_val c, hex_val d with
  | Some x, Some y, Some z, Some w => Some (4096 * x + 256 * y + 16 * z + w)
  | _, _, _, _ => None
  end.

(** The single-character escapes of JSONString. *)
Definition escape_char (e : N) : option N :=
  if e =? 34 then Some 34
  else if e =? 47 then Some 47
  else if e =? 92 then Some 92
  else if e =? 98 then Some 8
  else if e =? 102 then Some 12
  else if e =? 110 then Some 10
  else if e =? 114 then Some 13
  else if e =? 116 then Some 9
  else None.

(** The characters of a JSONString after its opening quote, up to and
    including the closing quote; [acc] holds the decoded code units in
    reverse. *)
Fixpoint parse_string (s : jsstring) (acc : jsstring)
  : option (jsstring * jsstring) :=
  match s with
  | [] => None
  | c :: r =>
      if c =? 34 then Some (rev acc, r)
      else if c =? 92 then
        match r with
        | [] => None
        | e :: r' =>
            if e =? 117 then
              match r' with
              | h1 :: h2 :: h3 :: h4 :: r'' =>
                  match hex4 h1 h2 h3 h4 with
                  | Some u => parse_string r'' (u :: acc)
                  | None => None
                  end
              | _ => None
              end
            else
              match escape_char e with
              | Some x => parse_string r' (x :: acc)
              | None => None
              end
        end
      else if c <? 32 then None
      else parse_string r (c :: acc)
  end.

Definition skip_ws (s : jsstring) : jsstring := skip_while is_json_ws s.

Definition parse_literal (word : jsstring) (v : value) (s : jsstring)
  : presult (value * jsstring) :=
  match strip_prefix word s with
  | Some r => POk (v, r)
  | None => PSyntax
  end.

(** Recursive descent over the JSON grammar.  [fuel] bounds the number of
    nested calls; [parse_fuel_enough] below shows that the amount
    [JSON_parse] supplies is never used up. *)
Fixpoint parse_value (fuel : nat) (s : jsstring) {struct fuel}
  : presult (value * jsstring) :=
  match fuel with
  | O => PFuel
  | S f =>
      match skip_ws s with
      | [] => PSyntax
      | c :: r =>
          if c =? 123 then
            match skip_ws r with
            | d :: r' => if d =? 125 then POk (VObject [], r')
                         else parse_members f r []
            | [] => PSyntax
            end
          else if c =? 91 then
            match skip_ws r with
            | d :: r' => if d =? 93 then POk (VArray [], r')
                         else parse_elements f r []
            | [] => PSyntax
            end
          else if c =? 34 then
            match parse_string r [] with
            | Some (str, r') => POk (VString str, r')
            | None => PSyntax
            end
          else if c =? 116 then parse_literal (lit "true") (VBool true) (c :: r)
          else if c =? 102 then parse_literal (lit "false") (VBool false) (c :: r)
          else if c =? 110 then parse_literal (lit "null") VNull (c :: r)
          else
            match parse_number (c :: r) with
            | Some (n, r') => POk (VNumber n, r')
            | None => PSyntax
            end
      end
  end

with parse_elements (fuel : nat) (s : jsstring) (acc : list value)
  {struct fuel} : presult (value * jsstring) :=
  match fuel with
  | O => PFuel
  | S f =>
      match parse_value f s with
      | POk (v, r) =>
          match skip_ws r with
          | d :: r' =>
              if d =? 44 then parse_elements f r' (v :: acc)
              else if d =? 93 then POk (VArray (rev (v :: acc)), r')
              else PSyntax
          | [] => PSyntax
          end
      | PSyntax => PSyntax
      | PFuel => PFuel
      end
  end

with parse_members (fuel : nat) (s : jsstring) (acc : list (jsstring * value))
  {struct fuel} : presult (value * jsstring) :=
  match fuel with
  | O => PFuel
  | S f =>
      match skip_ws s with
      | q :: r =>
          if q =? 34 then
            match parse_string r [] with
            | Some (k, r1) =>
                match skip_ws r1 with
                | c :: r2 =>
                    if c =? 58 then
                      match parse_value f r2 with
                      | POk (v, r3) =>
                          match skip_ws r3 with
                          | d :: r4 =>
                              if d =? 44 then parse_members f r4 (obj_set k v acc)
                              else if d =? 125 then
                                POk (VObject (obj_set k v acc), r4)
                              else PSyntax
                          | [] => PSyntax
                          end
                      | PSyntax => PSyntax
                      | PFuel => PFuel
                      end
                    else PSyntax
                | [] => PSyntax
                end
            | None => PSyntax
            end
          else PSyntax
      | [] => PSyntax
      end
  end.

Definition parse_fuel (s : jsstring) : nat := (2 * List.length s + 1)%nat.

(** ** Exceptions and completion

    A JavaScript computation either completes with a value or throws.
    [NoFuel] is the third outcome of the model only: the parser ran out of
    fuel.  No [try]/[catch] intercepts it, and [JSON_parse_total] shows it
    never arises. *)

Inductive exn :=
| SyntaxError
| TypeError
| RangeError
| IndexSizeError
| Error (message : value).

Inductive res (A : Type) :=
| Val (a : A)
| Throw (e : exn)
| NoFuel.
Arguments Val {A} a.
Arguments Throw {A} e.
Arguments NoFuel {A}.

Definition bind {A B} (m : res A) (k : A -> res B) : res B :=
  match m with
  | Val a => k a
  | Throw e => Throw e
  | NoFuel => NoFuel
  end.

Notation "x <- m ;; k" := (bind m (fun x => k))
  (at level 61, m at next level, right associativity).

(** [JSON.parse(s)]: one JSON value surrounded by JSON whitespace, or a
    SyntaxError. *)
Definition JSON_parse (s : jsstring) : res value :=
  match parse_value (parse_fuel s) s with
  | POk (v, r) =>
      match skip_ws r with
      | [] => Val v
      | _ :: _ => Throw SyntaxError
      end
  | PSyntax => Throw SyntaxError
  | PFuel => NoFuel
  end.

(** ** Dynamic operations on values; [None] is [undefined] *)

(** [v.k] for the property names the code reads ([translation], [summary],
    [points], [model], [explanationModel], [error], [text],
    [contextBefore], [contextAfter]): none of them is defined on a built-in
    prototype, so on a primitive or an array the result is [undefined], on
    an object it is the own property, and on [null] the access throws. *)
Definition get_prop (v : value) (k : jsstring) : res (option value) :=
  match v with
  | VNull => Throw TypeError
  | VObject m => Val (obj_get k m)
  | _ => Val None
  end.

Definition truthy (v : option value) : bool :=
  match v with
  | None => false
  | Some VNull => false
  | Some (VBool b) => b
  | Some (VNumber n) => negb (number_is_zero n)
  | Some (VString s) => match s with [] => false | _ :: _ => true end
  | Some (VArray _) => true
  | Some (VObject _) => true
  end.

(** [Array.isArray] *)
Definition isArray (v : option value) : bool :=
  match v with
  | Some (VArray _) => true
  | _ => false
  end.

(** [typeof p === 'string'] *)
Definition is_string (p : value) : bool :=
  match p with
  | VString _ => true
  | _ => false
  end.

(** Does [ToString(v)] complete?  Template literals, [replace] and
    [new Error] convert their argument to a string.  The conversion of an
    object calls its [toString]; an object that [JSON.parse] built with an
    own property of that name has no callable one, and the conversion
    throws a TypeError.  An array converts its elements in turn. *)
Fixpoint stringifies (v : value) : bool :=
  match v with
  | VArray l => forallb stringifies l
  | VObject m =>
      match obj_get (lit "toString") m with
      | Some _ => false
      | None => true
      end
  | _ => true
  end.

(** [a || d] *)
Definition or_default (a : option value) (d : value) : value :=
  match a with
  | Some v => if truthy a then v else d
  | None => d
  end.

(** A truthy optional string: neither [undefined] nor empty. *)
Definition nonempty (s : option jsstring) : option jsstring :=
  match s with
  | Some (_ :: _) => s
  | _ => None
  end.

(** A [try] block whose [catch] swallows the exception: the block returns
    from the enclosing function ([Val (Some v)]), runs to its end
    ([Val None]) or throws; in the last two cases [rest] runs. *)
Definition try_else {A} (b : res (option A)) (rest : res A) : res A :=
  match b with
  | Val (Some v) => Val v
  | Val None => rest
  | Throw _ => rest
  | NoFuel => NoFuel
  end.

Definition of_sum {A} (x : exn + A) : res A :=
  match x with
  | inl e => Throw e
  | inr a => Val a
  end.

(** [Response.ok] *)
Definition ok (status : Z) : bool := ((200 <=? status) && (status <=? 299))%Z.

(** ** The response normalizer (translate/route.ts and explain/route.ts)

    [parseTranslationResponse] and [parseExplanationResponse] are the same
    text up to the name of the primary field. *)

Definition points_key : jsstring := lit "points".

Section Normalizer.

Variable primary : jsstring.

Definition block := res (option value).

(** [if (parsed.primary !== undefined && Array.isArray(parsed.points))
      return parsed;] *)
Definition accept_as_is (parsed : value) : block :=
  p <- get_prop parsed primary ;;
  match p with
  | Some _ =>
      pts <- get_prop parsed points_key ;;
      if isArray pts then Val (Some parsed) else Val None
  | None => Val None
  end.

(** First and second [try] block. *)
Definition direct_parse (text : jsstring) : block :=
  parsed <- JSON_parse text ;;
  accept_as_is parsed.

Definition clean (text : jsstring) : jsstring :=
  trim
    (replace_trailing_fence
       (replace_leading backticks
          (replace_leading (lit "```json") (trim text)))).

(** The object literal [{ primary, points }]. *)
Definition response (p : jsstring) (points : list value) : value :=
  VObject [(primary, VString p); (points_key, VArray points)].

(** [Array.isArray(value) ? value[0] : value] *)
Definition candidate_of (v : value) : option value :=
  match v with
  | VArray l => nth_error l 0
  | _ => Some v
  end.

(** Third [try] block. *)
Definition lenient_parse (cleaned : jsstring) : block :=
  value <- JSON_parse cleaned ;;
  let obj := candidate_of value in
  match obj with
  | Some o =>
      if truthy obj then
        p <- get_prop o primary ;;
        let p' := match p with Some (VString str) => str | _ => [] end in
        pts <- get_prop o points_key ;;
        let points :=
          match pts with
          | Some (VArray l) => filter is_string l
          | _ => []
          end in
        Val (Some (response p' points))
      else Val None
  | None => Val None
  end.

Definition fallback (text : jsstring) : value := response text [].

Definition parseResponse (text : jsstring) : res value :=
  try_else (direct_parse text)
    (let cleaned := clean text in
     try_else (direct_parse cleaned)
       (try_else (lenient_parse cleaned)
          (Val (fallback text)))).

(** A [try] block produces the function's result when it returns. *)
Definition returns (b : block) : Prop := exists v, b = Val (Some v).

(** The shape [{ primary: string, points: string[] }]. *)
Definition well_formed (v : value) : bool :=
  match v with
  | VObject m =>
      match obj_get primary m, obj_get points_key m with
      | Some (VString _), Some (VArray l) => forallb is_string l
      | _, _ => false
      end
  | _ => false
  end.

End Normalizer.

Definition parseTranslationResponse : jsstring -> res value :=
  parseResponse (lit "translation").

Definition parseExplanationResponse : jsstring -> res value :=
  parseResponse (lit "summary").

(** ** Network effects

    A computation that issues requests carries the log of the requests
    sent so far; the remote side is an oracle from requests to responses
    (or to the exception with which [fetch] rejects). *)

Section Net.

Variables Req Resp : Type.

Definition net (A : Type) := list Req -> res A * list Req.

Definition nret {A} (a : A) : net A := fun log => (Val a, log).

Definition lift {A} (m : res A) : net A := fun log => (m, log).

Definition nbind {A B} (m : net A) (k : A -> net B) : net B :=
  fun log =>
    match m log with
    | (Val a, log') => k a log'
    | (Throw e, log') => (Throw e, log')
    | (NoFuel, log') => (NoFuel, log')
    end.

(** [await fetch(request)] *)
Definition fetch (remote : Req -> exn + Resp) (q : Req) : net Resp :=
  fun log => (of_sum (remote q), log ++ [q]).

(** [try { m } catch (error) { handler error }] *)
Definition ncatch {A} (m : net A) (handler : exn -> net A) : net A :=
  fun log =>
    match m log with
    | (Throw e, log') => handler e log'
    | other => other
    end.

(** Run from an empty log. *)
Definition run {A} (m : net A) : res A * list Req := m [].

End Net.

Arguments nret {Req A} a.
Arguments lift {Req A} m.
Arguments nbind {Req A B} m k.
Arguments fetch {Req Resp} remote q.
Arguments ncatch {Req A} m handler.
Arguments run {Req A} m.

Notation "x <~ m ;; k" := (nbind m (fun x => k))
  (at level 61, m at next level, right associativity).

(** ** The route handlers (translate/route.ts and explain/route.ts) *)

Inductive operation := Translate | Explain.

Definition primary_of (op : operation) : jsstring :=
  match op with
  | Translate => lit "translation"
  | Explain => lit "summary"
  end.

(** What the handler sends upstream.  The URL is built from the model and
    the key, the prompt from the operation's template and the three
    texts.  The request is recorded by the values these are built from;
    [gr_url] and [gr_prompt] below are the URL and the prompt themselves,
    for values that are strings. *)
Record generate_request := {
  gr_operation : operation;
  gr_model : value;
  gr_key : jsstring;
  gr_text : value;
  gr_context_before : value;
  gr_context_after : value
}.

(** [interface GeminiResponse], as declared. *)
Record part := { part_text : jsstring }.
Record candidate := { content_parts : list part }.
Record GeminiResponse := {
  candidates : option (list candidate);
  error_message : option jsstring
}.

(** The upstream response: its status, its body read with [text()], and
    its body read with [json()] at the declared type. *)
Record upstream_response := {
  up_status : Z;
  up_text : jsstring;
  up_json : exn + GeminiResponse
}.

(** The [error] field of an error body: a string of the code's own, or the
    [message] of a caught exception. *)
Inductive message :=
| Literal (s : jsstring)
| MessageOf (e : exn).

Inductive body :=
| ErrorBody (error : message)
| JsonBody (v : value).

Record http_response := { resp_body : body; resp_status : Z }.

(** The statuses of a response that has no body. *)
Definition null_body_status (status : Z) : bool :=
  ((status =? 101) || (status =? 103) || (status =? 204) || (status =? 205)
   || (status =? 304))%Z.

(** [NextResponse.json(body, { status })] builds the response with
    [Response.json], which throws a RangeError for a status outside
    200..599 and, the body being present, a TypeError for a status that
    allows none. *)
Definition NextResponse_json (b : body) (status : Z) : res http_response :=
  if ((status <? 200) || (599 <? status))%Z then Throw RangeError
  else if null_body_status status then Throw TypeError
  else Val {| resp_body := b; resp_status := status |}.

Definition credential_message : jsstring :=
  lit "GEMINI_API_KEY is not configured. Please set it in .env.local".
Definition text_required_message : jsstring := lit "Text required".
Definition rate_limit_message : jsstring :=
  lit "Rate limit exceeded. Please wait a moment and try again.".
Definition invalid_key_message : jsstring :=
  lit "Invalid API key. Please check your Gemini API key in Settings.".
Definition no_response_message : jsstring := lit "No response from API".
Definition default_model : jsstring := lit "gemini-2.0-flash".

(** A status inside a template literal: its decimal digits. *)
Definition status_string (status : Z) : jsstring :=
  lit (NilZero.string_of_int (Z.to_int status)).

(** The [errorMessage] chosen for a response that is not [ok]. *)
Definition errorMessage (status : Z) (errorText : jsstring) : jsstring :=
  if (status =? 429)%Z then rate_limit_message
  else if ((status =? 401) || (status =? 403))%Z then invalid_key_message
  else lit "API error (" ++ status_string status ++ lit "): " ++ errorText.

(** [data.candidates?.[0]?.content?.parts?.[0]?.text] *)
Definition resultText (data : GeminiResponse) : option jsstring :=
  match candidates data with
  | Some (c :: _) =>
      match content_parts c with
      | p :: _ => Some (part_text p)
      | [] => None
      end
  | _ => None
  end.

(** Converting each of [parts] to a string, as building the prompt, the
    URL or an [Error] does. *)
Definition stringify_all (parts : list value) : res unit :=
  if forallb stringifies parts then Val tt else Throw TypeError.

(** *** The prompt and the URL of a request

    [s.replace(pattern, replacement)] with a string pattern replaces the
    first occurrence of the pattern, and in the replacement text it
    expands the patterns that begin with a dollar sign. *)

(** The text before and the text after the first occurrence of [pattern]
    in [s]. *)
Fixpoint split_at_first (pattern s : jsstring) : option (jsstring * jsstring) :=
  match strip_prefix pattern s with
  | Some rest => Some ([], rest)
  | None =>
      match s with
      | [] => None
      | c :: r =>
          match split_at_first pattern r with
          | Some (before, after) => Some (c :: before, after)
          | None => None
          end
      end
  end.

(** The replacement text for a match without capture groups.  Two dollar
    signs give one; a dollar sign followed by an ampersand gives the
    matched text, followed by a backtick the text before the match,
    followed by an apostrophe the text after it; any other dollar sign
    stands for itself. *)
Fixpoint GetSubstitution (matched before after template : jsstring)
  : jsstring :=
  match template with
  | [] => []
  | c :: r =>
      if c =? 36 then
        match r with
        | d :: r' =>
            if d =? 36 then 36 :: GetSubstitution matched before after r'
            else if d =? 38 then
              matched ++ GetSubstitution matched before after r'
            else if d =? 96 then
              before ++ GetSubstitution matched before after r'
            else if d =? 39 then
              after ++ GetSubstitution matched before after r'
            else 36 :: GetSubstitution matched before after r
        | [] => [36]
        end
      else c :: GetSubstitution matched before after r
  end.

(** [s.replace(pattern, replacement)] for strings. *)
Definition String_replace (pattern replacement s : jsstring) : jsstring :=
  match split_at_first pattern s with
  | Some (before, after) =>
      before ++ GetSubstitution pattern before after replacement ++ after
  | None => s
  end.

Definition TRANSLATION_PROMPT : jsstring :=
  lit "SELECTED TEXT (translate this):
{text}

Context before:
{context_before}

Context after:
{context_after}".

Definition EXPLANATION_PROMPT : jsstring :=
  js "Explain the following text.

The user has selected text from a PDF document. The context shows the surrounding text:
- 'Context before' = text that appears BEFORE the selected text in the document
- 'Text to explain' = the actual text the user selected
- 'Context after' = text that appears AFTER the selected text in the document

## Context before (for understanding only):
{context_before}

## Text to explain:
{text}

## Context after (for understanding only):
{context_after}

Use the context to understand the meaning, but explain only the selected text.".

Definition prompt_template (op : operation) : jsstring :=
  match op with
  | Translate => TRANSLATION_PROMPT
  | Explain => EXPLANATION_PROMPT
  end.

(** [TEMPLATE.replace('{text}', text)
             .replace('{context_before}', contextBefore || '')
             .replace('{context_after}', contextAfter || '')],
    the defaults already applied. *)
Definition build_prompt (op : operation)
    (text contextBefore contextAfter : jsstring) : jsstring :=
  String_replace (lit "{context_after}") contextAfter
    (String_replace (lit "{context_before}") contextBefore
       (String_replace (lit "{text}") text (prompt_template op))).

Definition GEMINI_API_BASE : jsstring :=
  lit "https://generativelanguage.googleapis.com/v1beta".

(** The prompt of a request whose three texts are strings.  A value of
    another type is converted to a string first; that conversion is not
    written out here, and no prompt is given for such a request. *)
Definition gr_prompt (q : generate_request) : option jsstring :=
  match gr_text q, gr_context_before q, gr_context_after q with
  | VString text, VString contextBefore, VString contextAfter =>
      Some (build_prompt (gr_operation q) text contextBefore contextAfter)
  | _, _, _ => None
  end.

(** The URL of a request whose model is a string, likewise. *)
Definition gr_url (q : generate_request) : option jsstring :=
  match gr_model q with
  | VString model =>
      Some (GEMINI_API_BASE ++ lit "/models/" ++ model
              ++ lit ":generateContent?key=" ++ gr_key q)
  | _ => None
  end.

(** [s] does not contain the code unit [c]. *)
Definition no_unit (c : N) (s : jsstring) : bool :=
  forallb (fun d => negb (d =? c)) s.

(** [s.includes(pattern)] *)
Definition occurs (pattern s : jsstring) : bool :=
  match split_at_first pattern s with
  | Some _ => true
  | None => false
  end.

(** The split of a text that begins with [t], from the split of what
    follows [t], when the first occurrence lies there. *)
Definition prepend (t : jsstring) (found : option (jsstring * jsstring))
  : option (jsstring * jsstring) :=
  match found with
  | Some (before, after) => Some (t ++ before, after)
  | None => None
  end.

Section Route.

Variable op : operation.

(** [process.env.GEMINI_API_KEY] *)
Variable GEMINI_API_KEY : option jsstring.

Variable upstream : generate_request -> exn + upstream_response.

(** The body of the handler's [try]. [request_body] is the text that
    [request.json()] parses. *)
Definition POST_try (request_body : jsstring)
  : net generate_request http_response :=
  request <~ lift (JSON_parse request_body) ;;
  text <~ lift (get_prop request (lit "text")) ;;
  contextBefore <~ lift (get_prop request (lit "contextBefore")) ;;
  contextAfter <~ lift (get_prop request (lit "contextAfter")) ;;
  model <~ lift (get_prop request (lit "model")) ;;
  match nonempty GEMINI_API_KEY with
  | None => lift (NextResponse_json (ErrorBody (Literal credential_message)) 500)
  | Some apiKey =>
      match text with
      | Some text' =>
          if truthy text then
            let q :=
              {| gr_operation := op;
                 gr_model := or_default model (VString default_model);
                 gr_key := apiKey;
                 gr_text := text';
                 gr_context_before := or_default contextBefore (VString []);
                 gr_context_after := or_default contextAfter (VString []) |}
            in
            _ <~ lift (stringify_all [gr_text q; gr_context_before q;
                                    gr_context_after q; gr_model q]) ;;
            response <~ fetch upstream q ;;
            if negb (ok (up_status response)) then
              let status := up_status response in
              let errorText := up_text response in
              lift (NextResponse_json
                      (ErrorBody (Literal (errorMessage status errorText)))
                      status)
            else
              data <~ lift (of_sum (up_json response)) ;;
              match error_message data with
              | Some m => lift (NextResponse_json (ErrorBody (Literal m)) 500)
              | None =>
                  match nonempty (resultText data) with
                  | None =>
                      lift (NextResponse_json
                              (ErrorBody (Literal no_response_message)) 500)
                  | Some txt =>
                      parsed <~ lift (parseResponse (primary_of op) txt) ;;
                      lift (NextResponse_json (JsonBody parsed) 200)
                  end
              end
          else
            lift (NextResponse_json (ErrorBody (Literal text_required_message)) 400)
      | None =>
          lift (NextResponse_json (ErrorBody (Literal text_required_message)) 400)
      end
  end.

Definition POST (request_body : jsstring)
  : net generate_request http_response :=
  ncatch (POST_try request_body)
    (fun error => lift (NextResponse_json (ErrorBody (MessageOf error)) 500)).

End Route.

(** ** Settings and the client-side dispatcher (lib/settings.ts) *)

Record GeminiSettings := {
  s_apiKey : jsstring;
  s_model : value;
  s_explanationModel : value
}.

Definition DEFAULT_GEMINI_MODEL : jsstring := lit "gemini-2.0-flash".
Definition DEFAULT_GEMINI_EXPLANATION_MODEL : jsstring := lit "gemini-2.0-flash".

Definition DEFAULT_GEMINI_SETTINGS : GeminiSettings :=
  {| s_apiKey := [];
     s_model := VString DEFAULT_GEMINI_MODEL;
     s_explanationModel := VString DEFAULT_GEMINI_EXPLANATION_MODEL |}.

(** The browser as the settings code sees it: whether [window] exists, and
    what [localStorage.getItem(GEMINI_SETTINGS_KEY)] gives. *)
Record browser := {
  has_window : bool;
  stored_settings : exn + option jsstring
}.

Definition getGeminiSettings (b : browser) : res GeminiSettings :=
  if negb (has_window b) then Val DEFAULT_GEMINI_SETTINGS
  else
    try_else
      (stored <- of_sum (stored_settings b) ;;
       match nonempty stored with
       | Some str =>
           parsed <- JSON_parse str ;;
           model <- get_prop parsed (lit "model") ;;
           explanationModel <- get_prop parsed (lit "explanationModel") ;;
           Val (Some
                  {| s_apiKey := [];
                     s_model := or_default model (VString DEFAULT_GEMINI_MODEL);
                     s_explanationModel :=
                       or_default explanationModel
                         (VString DEFAULT_GEMINI_EXPLANATION_MODEL) |})
       | None => Val None
       end)
      (Val DEFAULT_GEMINI_SETTINGS).

(** The request the dispatcher sends to its own backend: the endpoint and
    the fields of the object that [JSON.stringify] turns into the body.
    The texts are strings and are sent as they are; [api_model] is the
    value before it is serialized, and a string among the values it can
    take is sent as it is too. *)
Record api_request := {
  api_url : jsstring;
  api_text : jsstring;
  api_contextBefore : jsstring;
  api_contextAfter : jsstring;
  api_model : value
}.

(** The backend's answer: its status and its body read with [json()]. *)
Record api_response := {
  api_status : Z;
  api_json : exn + value
}.

Section Dispatcher.

Variable b : browser.
Variable backend : api_request -> exn + api_response.

Definition dispatch (url : jsstring) (pick : GeminiSettings -> value)
    (failed : jsstring)
    (text contextBefore contextAfter : jsstring)
    (modelOverride : option jsstring) : net api_request value :=
  settings <~ lift (getGeminiSettings b) ;;
  response <~ fetch backend
    {| api_url := url;
       api_text := text;
       api_contextBefore := contextBefore;
       api_contextAfter := contextAfter;
       api_model :=
         match nonempty modelOverride with
         | Some m => VString m
         | None => pick settings
         end |} ;;
  if negb (ok (api_status response)) then
    error <~ lift (of_sum (api_json response)) ;;
    e <~ lift (get_prop error (lit "error")) ;;
    let m := or_default e (VString failed) in
    _ <~ lift (stringify_all [m]) ;;
    lift (Throw (Error m))
  else lift (of_sum (api_json response)).

Definition translateWithGemini :=
  dispatch (lit "/api/gemini/translate") s_model (lit "Translation failed").

Definition explainDirectly :=
  dispatch (lit "/api/gemini/explain") s_explanationModel
    (lit "Explanation failed").

End Dispatcher.

(** ** The context menu composable (app/composables/useContextMenu.ts) *)

Section ContextMenu.

(** Coordinates are JavaScript numbers, DOM nodes are opaque. *)
Variables number_t node : Type.

Record ContextMenuPosition := { pos_x : number_t; pos_y : number_t }.

Record range := { commonAncestorContainer : node }.

(** [getRangeAt(i)] is the [i]-th element of [ranges]. *)
Record selection := {
  isCollapsed : bool;
  toString : jsstring;
  ranges : list range
}.

(** The page at the time of the event: [window.getSelection()],
    [document.getElementById("pdf-viewer-container")], and
    [a.contains(b)]. *)
Record page := {
  getSelection : option selection;
  pdf_viewer_container : option node;
  contains : node -> node -> bool
}.

Record MouseEvent := {
  clientX : number_t;
  clientY : number_t;
  defaultPrevented : bool
}.

Definition preventDefault (e : MouseEvent) : MouseEvent :=
  {| clientX := clientX e; clientY := clientY e; defaultPrevented := true |}.

(** The event after the handler ran, and [contextMenuPosition.value]. *)
Definition menu_state := (MouseEvent * option ContextMenuPosition)%type.

Definition handleContextMenu (pg : page) (e : MouseEvent)
    (contextMenuPosition : option ContextMenuPosition) : res menu_state :=
  match getSelection pg with
  | None => Val (e, contextMenuPosition)
  | Some windowSelection =>
      if isCollapsed windowSelection then Val (e, contextMenuPosition)
      else
        let selectedText := trim (toString windowSelection) in
        match selectedText with
        | [] => Val (e, contextMenuPosition)
        | _ :: _ =>
            match nth_error (ranges windowSelection) 0 with
            | None => Throw IndexSizeError
            | Some rg =>
                let container := commonAncestorContainer rg in
                match pdf_viewer_container pg with
                | None => Val (e, contextMenuPosition)
                | Some pdfViewer =>
                    if negb (contains pg pdfViewer container)
                    then Val (e, contextMenuPosition)
                    else
                      Val (preventDefault e,
                           Some {| pos_x := clientX e; pos_y := clientY e |})
                end
            end
        end
  end.

(** [const closeContextMenu = () => {}] *)
Definition closeContextMenu
    (contextMenuPosition : option ContextMenuPosition)
  : option ContextMenuPosition :=
  contextMenuPosition.

End ContextMenu.

Arguments pos_x {number_t} _.
Arguments pos_y {number_t} _.
Arguments handleContextMenu {number_t node} pg e contextMenuPosition.
Arguments closeContextMenu {number_t} contextMenuPosition.

(** ** Saving the settings (lib/settings.ts)

    [saveGeminiSettings] serializes its argument with [JSON.stringify].
    The argument is taken at its declared type, an object of three
    strings, with the properties in the order of the object literals of
    settings.ts. *)

Definition hex_digit (d : N) : N := if d <? 10 then 48 + d else 87 + d.

(** [\uXXXX] with lower-case digits. *)
Definition UnicodeEscape (c : N) : jsstring :=
  [92; 117; hex_digit (c / 4096); hex_digit ((c / 256) mod 16);
   hex_digit ((c / 16) mod 16); hex_digit (c mod 16)].

Definition is_leading_surrogate (c : N) : bool := (55296 <=? c) && (c <=? 56319).
Definition is_trailing_surrogate (c : N) : bool := (56320 <=? c) && (c <=? 57343).

(** QuoteJSONString on one code point that is not a surrogate pair. *)
Definition quote_unit (c : N) : jsstring :=
  if c =? 8 then [92; 98]
  else if c =? 9 then [92; 116]
  else if c =? 10 then [92; 110]
  else if c =? 12 then [92; 102]
  else if c =? 13 then [92; 114]
  else if c =? 34 then [92; 34]
  else if c =? 92 then [92; 92]
  else if (c <? 32) || is_leading_surrogate c || is_trailing_surrogate c
       then UnicodeEscape c
  else [c].

(** The code points of the string in turn: a leading surrogate followed
    by a trailing one is one code point and is copied; a lone surrogate is
    escaped. *)
Fixpoint quote_units (s : jsstring) : jsstring :=
  match s with
  | [] => []
  | c :: r =>
      if is_leading_surrogate c then
        match r with
        | d :: r' =>
            if is_trailing_surrogate d then c :: d :: quote_units r'
            else quote_unit c ++ quote_units r
        | [] => quote_unit c
        end
      else quote_unit c ++ quote_units r
  end.

Definition QuoteJSONString (s : jsstring) : jsstring :=
  34 :: quote_units s ++ [34].

Fixpoint join_comma (l : list jsstring) : jsstring :=
  match l with
  | [] => []
  | x :: r =>
      match r with
      | [] => x
      | _ :: _ => x ++ 44 :: join_comma r
      end
  end.

(** One property, ["key":"value"]. *)
Definition member_text (kv : jsstring * jsstring) : jsstring :=
  QuoteJSONString (fst kv) ++ 58 :: QuoteJSONString (snd kv).

(** [JSON.stringify] of an object whose properties are strings (and whose
    keys are not array indices, so that they come in creation order). *)
Definition JSON_stringify_strings (m : list (jsstring * jsstring)) : jsstring :=
  123 :: join_comma (map member_text m) ++ [125].

(** The properties of an object built from string members one after the
    other, as [JSON.parse] creates them. *)
Definition string_members (m : list (jsstring * jsstring))
    (acc : list (jsstring * value)) : list (jsstring * value) :=
  fold_left (fun a kv => obj_set (fst kv) (VString (snd kv)) a) m acc.

Record typed_settings := {
  ts_apiKey : jsstring;
  ts_model : jsstring;
  ts_explanationModel : jsstring
}.

Definition settings_json (settings : typed_settings) : jsstring :=
  JSON_stringify_strings
    [(lit "apiKey", ts_apiKey settings);
     (lit "model", ts_model settings);
     (lit "explanationModel", ts_explanationModel settings)].

(** The browser after [saveGeminiSettings(settings)]. [setItem] is
    [localStorage.setItem(GEMINI_SETTINGS_KEY, _)], which may throw; what
    it stored is what [getItem] gives from then on. *)
Definition saveGeminiSettings (b : browser) (setItem : jsstring -> exn + unit)
    (settings : typed_settings) : browser :=
  if negb (has_window b) then b
  else
    match setItem (settings_json settings) with
    | inr _ =>
        {| has_window := has_window b;
           stored_settings := inr (Some (settings_json settings)) |}
    | inl _ => b
    end.

(** ** Zoom (lib/zoom.ts)

    Zoom levels are JavaScript numbers, that is IEEE binary64 values:
    [spec_float] with precision 53 and maximal exponent 1024. *)

Definition Number_add : spec_float -> spec_float -> spec_float := SFadd 53 1024.
Definition Number_sub : spec_float -> spec_float -> spec_float := SFsub 53 1024.

(** [Math.min] and [Math.max] of two numbers: NaN if either is NaN, and
    the negative zero below the positive one. *)
Definition Math_min (a b : spec_float) : spec_float :=
  match a, b with
  | S754_nan, _ => S754_nan
  | _, S754_nan => S754_nan
  | S754_zero sa, S754_zero sb => S754_zero (sa || sb)
  | _, _ => if SFltb b a then b else a
  end.

Definition Math_max (a b : spec_float) : spec_float :=
  match a, b with
  | S754_nan, _ => S754_nan
  | _, S754_nan => S754_nan
  | S754_zero sa, S754_zero sb => S754_zero (sa && sb)
  | _, _ => if SFltb a b then b else a
  end.

(** [k / 4] for an integer [k]. *)
Definition quarters (k : Z) : spec_float := binary_normalize 53 1024 k (-2) false.

(** [ZOOM_CONFIG] *)
Definition ZOOM_min : spec_float := S754_finite false 4503599627370496 (-54).
Definition ZOOM_max : spec_float := S754_finite false 4503599627370496 (-50).
Definition ZOOM_step : spec_float := S754_finite false 4503599627370496 (-54).
Definition ZOOM_default : spec_float := S754_finite false 4503599627370496 (-52).

Definition clampZoom (zoom : spec_float) : spec_float :=
  Math_max ZOOM_min (Math_min ZOOM_max zoom).

Definition zoomIn (current : spec_float) : spec_float :=
  clampZoom (Number_add current ZOOM_step).

Definition zoomOut (current : spec_float) : spec_float :=
  clampZoom (Number_sub current ZOOM_step).

Definition resetZoom : spec_float := ZOOM_default.

(** * Properties *)

Local Ltac break_match :=
  match goal with
  | H : context [match ?x with _ => _ end] |- _ => destruct x eqn:?
  | |- context [match ?x with _ => _ end] => destruct x eqn:?
  end.

Local Ltac inv H := inversion H; subst; clear H.

(** Case analysis on a scrutinee that is not itself a case analysis. *)
Local Ltac inner_destruct :=
  match goal with
  | |- context [match ?x with _ => _ end] =>
      lazymatch x with
      | context [match _ with _ => _ end] => fail
      | _ => destruct x eqn:?
      end
  end.

Lemma jsstring_eqb_eq a b : jsstring_eqb a b = true <-> a = b.
Proof.
  unfold jsstring_eqb. destruct (list_eq_dec N.eq_dec a b); split; congruence.
Qed.

(** ** The parser consumes input and never runs out of fuel *)

Section ParserTermination.

Local Open Scope nat_scope.

Lemma skip_while_length p s : List.length (skip_while p s) <= List.length s.
Proof.
  induction s as [|c r IH]; simpl; [lia|].
  destruct (p c); simpl; lia.
Qed.

Lemma skip_ws_cons_length s c r :
  skip_ws s = c :: r -> List.length r < List.length s.
Proof.
  intros H. pose proof (skip_while_length is_json_ws s) as L.
  unfold skip_ws in H. rewrite H in L. simpl in L. lia.
Qed.

Lemma strip_prefix_length p : forall s r,
  strip_prefix p s = Some r -> List.length r + List.length p = List.length s.
Proof.
  induction p as [|a p IH]; intros s r H; simpl in *.
  - inv H. lia.
  - destruct s as [|b s]; [discriminate|].
    destruct (N.eqb a b); [|discriminate].
    apply IH in H. simpl. lia.
Qed.

Lemma scan_digits_length : forall s acc cnt m k r,
  scan_digits s acc cnt = (m, k, r) -> List.length r <= List.length s.
Proof.
  induction s as [|c s IH]; intros acc cnt m k r H; simpl in *.
  - inv H. simpl. lia.
  - destruct (is_digit c).
    + apply IH in H. lia.
    + inv H. simpl. lia.
Qed.

Lemma scan_int_length s m r :
  scan_int s = Some (m, r) -> List.length r < List.length s.
Proof.
  unfold scan_int. destruct s as [|c s]; [discriminate|].
  destruct (N.eqb c 48).
  - intros H; inv H. simpl. lia.
  - destruct (is_digit c); [|discriminate].
    destruct (scan_digits s (c - 48)%N 0%Z) as [[m' k'] r'] eqn:E.
    intros H; inv H. apply scan_digits_length in E. simpl. lia.
Qed.

Lemma scan_frac_length m s m' k r :
  scan_frac m s = Some (m', k, r) -> List.length r <= List.length s.
Proof.
  unfold scan_frac. destruct s as [|c s]; [intros H; inv H; lia|].
  destruct (N.eqb c 46).
  - destruct s as [|d s]; [discriminate|].
    destruct (is_digit d); [|discriminate].
    destruct (scan_digits (d :: s) m 0%Z) as [[m0 k0] r0] eqn:E.
    intros H; inv H. apply scan_digits_length in E. simpl in *. lia.
  - intros H; inv H. lia.
Qed.

Lemma scan_exp_length s e r :
  scan_exp s = Some (e, r) -> List.length r <= List.length s.
Proof.
  unfold scan_exp. destruct s as [|c s]; [intros H; inv H; lia|].
  destruct (N.eqb c 101 || N.eqb c 69).
  - intros H.
    assert (forall neg r1, List.length r1 <= List.length s ->
      match r1 with
      | [] => None
      | d :: _ =>
          if is_digit d
          then let '(e0, _, r2) := scan_digits r1 0%N 0%Z in
               Some (if neg : bool then (- Z.of_N e0)%Z else Z.of_N e0, r2)
          else None
      end = Some (e, r) -> List.length r <= List.length (c :: s)) as K.
    { intros neg r1 L1 H1. destruct r1 as [|d r1]; [discriminate|].
      destruct (is_digit d); [|discriminate].
      destruct (scan_digits (d :: r1) 0%N 0%Z) as [[e0 k0] r2] eqn:E.
      inv H1. apply scan_digits_length in E. simpl in *. lia. }
    destruct s as [|sg s']; [discriminate|].
    destruct (N.eqb sg 45); [apply (K true s'); [simpl; lia|exact H]|].
    destruct (N.eqb sg 43);
      [apply (K false s')|apply (K false (sg :: s'))];
      (simpl; lia) || exact H.
  - intros H; inv H. lia.
Qed.

Lemma parse_number_length s n r :
  parse_number s = Some (n, r) -> List.length r < List.length s.
Proof.
  unfold parse_number.
  assert (forall neg s1, List.length s1 <= List.length s ->
    match scan_int s1 with
    | None => None
    | Some (m, s2) =>
        match scan_frac m s2 with
        | None => None
        | Some (m', k, s3) =>
            match scan_exp s3 with
            | None => None
            | Some (e, s4) => Some (Num neg m' (e - k), s4)
            end
        end
    end = Some (n, r) -> List.length r < List.length s) as K.
  { intros neg s1 L H.
    destruct (scan_int s1) as [[m s2]|] eqn:E1; [|discriminate].
    destruct (scan_frac m s2) as [[[m' k] s3]|] eqn:E2; [|discriminate].
    destruct (scan_exp s3) as [[e s4]|] eqn:E3; [|discriminate].
    inv H. apply scan_int_length in E1. apply scan_frac_length in E2.
    apply scan_exp_length in E3. lia. }
  destruct s as [|c s']; [apply K; lia|].
  destruct (N.eqb c 45); apply K; simpl; lia.
Qed.

Lemma parse_string_length_aux : forall n s,
  List.length s <= n -> forall acc k r,
  parse_string s acc = Some (k, r) -> List.length r < List.length s.
Proof.
  induction n as [|n IH]; intros s L acc k r H;
    (destruct s as [|c s]; simpl in H; [discriminate|]);
    simpl in L; [lia|].
  destruct (N.eqb c 34); [inv H; simpl; lia|].
  destruct (N.eqb c 92).
  - destruct s as [|e s]; [discriminate|].
    destruct (N.eqb e 117).
    + destruct s as [|h1 [|h2 [|h3 [|h4 s]]]]; try discriminate.
      destruct (hex4 h1 h2 h3 h4); [|discriminate].
      apply IH in H; simpl in *; lia.
    + destruct (escape_char e); [|discriminate].
      apply IH in H; simpl in *; lia.
  - destruct (N.ltb c 32); [discriminate|].
    apply IH in H; simpl in *; lia.
Qed.

Lemma parse_string_length s acc k r :
  parse_string s acc = Some (k, r) -> List.length r < List.length s.
Proof. apply (parse_string_length_aux (List.length s)). lia. Qed.

Arguments parse_number : simpl never.
Arguments parse_literal : simpl never.
Arguments parse_string : simpl never.
Arguments skip_ws : simpl never.

Lemma parse_literal_length w v s v' r :
  parse_literal w v s = POk (v', r) ->
  List.length r + List.length w = List.length s.
Proof.
  unfold parse_literal. destruct (strip_prefix w s) eqn:E; [|discriminate].
  intros H; inv H. now apply strip_prefix_length.
Qed.

Local Ltac length_facts :=
  repeat match goal with
    | H : skip_ws _ = _ :: _ |- _ => apply skip_ws_cons_length in H
    | H : parse_string _ _ = Some _ |- _ => apply parse_string_length in H
    | H : parse_number _ = Some _ |- _ => apply parse_number_length in H
    | H : parse_literal _ _ _ = POk _ |- _ => apply parse_literal_length in H
    end.

(** Every successful call leaves strictly less input than it was given. *)
Lemma parse_consumes : forall f,
  (forall s v r, parse_value f s = POk (v, r) ->
                 List.length r < List.length s) /\
  (forall s acc v r, parse_elements f s acc = POk (v, r) ->
                     List.length r < List.length s) /\
  (forall s acc v r, parse_members f s acc = POk (v, r) ->
                     List.length r < List.length s).
Proof.
  induction f as [|f (IHv & IHe & IHm)]; repeat split;
    intros until r; intros H; simpl in H; try discriminate.
  - repeat break_match; try discriminate;
      try (apply IHe in H); try (apply IHm in H);
      try (injection H as <- <-); length_facts; simpl in *; lia.
  - destruct (parse_value f s) as [[v0 r0]| |] eqn:E; try discriminate.
    apply IHv in E.
    repeat break_match; try discriminate;
      try (apply IHe in H); try (injection H as <- <-);
      length_facts; simpl in *; lia.
  - destruct (skip_ws s) as [|q r0] eqn:E0; [discriminate|].
    destruct (N.eqb q 34); [|discriminate].
    destruct (parse_string r0 []) as [[k r1]|] eqn:E1; [|discriminate].
    destruct (skip_ws r1) as [|c r2] eqn:E2; [discriminate|].
    destruct (N.eqb c 58); [|discriminate].
    destruct (parse_value f r2) as [[v0 r3]| |] eqn:E3; try discriminate.
    apply IHv in E3.
    repeat break_match; try discriminate;
      try (apply IHm in H); try (injection H as <- <-);
      length_facts; simpl in *; lia.
Qed.

Lemma parse_value_consumes f s v r :
  parse_value f s = POk (v, r) -> List.length r < List.length s.
Proof. apply parse_consumes. Qed.

(** With fuel beyond twice the length of the input no call gives up. *)
Lemma parse_fuel_enough : forall f,
  (forall s, 2 * List.length s + 1 <= f -> parse_value f s <> PFuel) /\
  (forall s acc, 2 * List.length s + 2 <= f ->
                 parse_elements f s acc <> PFuel) /\
  (forall s acc, 2 * List.length s + 2 <= f ->
                 parse_members f s acc <> PFuel).
Proof.
  induction f as [|f (IHv & IHe & IHm)]; repeat split;
    intros; try lia; simpl.
  - repeat break_match; try discriminate; length_facts;
      try (apply IHe; simpl in *; lia); try (apply IHm; simpl in *; lia).
    all: unfold parse_literal in *; repeat break_match; discriminate.
  - destruct (parse_value f s) as [[v0 r0]| |] eqn:E; try discriminate.
    + apply parse_value_consumes in E.
      repeat break_match; try discriminate; length_facts.
      apply IHe; simpl in *; lia.
    + exfalso. revert E. apply IHv. lia.
  - destruct (skip_ws s) as [|q r0] eqn:E0; [discriminate|].
    destruct (N.eqb q 34); [|discriminate].
    destruct (parse_string r0 []) as [[k r1]|] eqn:E1; [|discriminate].
    destruct (skip_ws r1) as [|c r2] eqn:E2; [discriminate|].
    destruct (N.eqb c 58); [|discriminate].
    length_facts.
    destruct (parse_value f r2) as [[v0 r3]| |] eqn:E3; try discriminate.
    + apply parse_value_consumes in E3.
      repeat break_match; try discriminate; length_facts.
      apply IHm; simpl in *; lia.
    + exfalso. revert E3. apply IHv. lia.
Qed.

(** More fuel does not change the outcome of a call that did not give
    up. *)
Lemma parse_fuel_more : forall f,
  (forall s, parse_value f s <> PFuel ->
             forall g, f <= g -> parse_value g s = parse_value f s) /\
  (forall s acc, parse_elements f s acc <> PFuel ->
                 forall g, f <= g ->
                 parse_elements g s acc = parse_elements f s acc) /\
  (forall s acc, parse_members f s acc <> PFuel ->
                 forall g, f <= g ->
                 parse_members g s acc = parse_members f s acc).
Proof.
  induction f as [|f (IHv & IHe & IHm)]; repeat split; intros;
    try (simpl in *; congruence);
    (destruct g as [|g]; [lia|]);
    match goal with N : _ <> PFuel |- _ => revert N end; simpl.
  - repeat (inner_destruct; simpl); try reflexivity; intros N.
    + apply IHm; [exact N|lia].
    + apply IHe; [exact N|lia].
  - destruct (parse_value f s) as [[v r]| |] eqn:E; try congruence;
      (assert (parse_value g s = parse_value f s) as ->
          by (apply IHv; [rewrite E; discriminate|lia]));
      rewrite E; try reflexivity.
    repeat (inner_destruct; simpl); try reflexivity; intros N.
    apply IHe; [exact N|lia].
  - destruct (skip_ws s) as [|q r0]; [reflexivity|].
    destruct (N.eqb q 34); [|reflexivity].
    destruct (parse_string r0 []) as [[k r1]|]; [|reflexivity].
    destruct (skip_ws r1) as [|c r2]; [reflexivity|].
    destruct (N.eqb c 58); [|reflexivity].
    destruct (parse_value f r2) as [[v r]| |] eqn:E; try congruence;
      (assert (parse_value g r2 = parse_value f r2) as ->
          by (apply IHv; [rewrite E; discriminate|lia]));
      rewrite E; try reflexivity.
    repeat (inner_destruct; simpl); try reflexivity; intros N.
    apply IHm; [exact N|lia].
Qed.

End ParserTermination.

(** The fuel [JSON_parse] supplies is as good as any larger amount. *)
Lemma parse_fuel_independent s g :
  (parse_fuel s <= g)%nat ->
  parse_value g s = parse_value (parse_fuel s) s.
Proof.
  intros L. apply parse_fuel_more; [|exact L].
  apply parse_fuel_enough. unfold parse_fuel. lia.
Qed.

(** [JSON.parse] always completes: it returns a value or throws. *)
Lemma JSON_parse_total s : JSON_parse s <> NoFuel.
Proof.
  unfold JSON_parse.
  destruct (parse_value (parse_fuel s) s) as [[v r]| |] eqn:E.
  - destruct (skip_ws r); discriminate.
  - discriminate.
  - exfalso. revert E. apply parse_fuel_enough. unfold parse_fuel. lia.
Qed.

(** ** What the parser returns for a text that opens with a brace *)

Lemma parse_elements_array : forall f s acc v r,
  parse_elements f s acc = POk (v, r) -> exists l, v = VArray l.
Proof.
  induction f as [|f IH]; intros s acc v r H; simpl in H; [discriminate|].
  destruct (parse_value f s) as [[v0 r0]| |]; try discriminate.
  destruct (skip_ws r0) as [|d r']; [discriminate|].
  destruct (d =? 44); [eauto|].
  destruct (d =? 93); [|discriminate].
  injection H as <- <-. eauto.
Qed.

Lemma parse_members_object : forall f s acc v r,
  parse_members f s acc = POk (v, r) -> exists m, v = VObject m.
Proof.
  induction f as [|f IH]; intros s acc v r H; simpl in H; [discriminate|].
  repeat (break_match; try discriminate); eauto.
  injection H as <- <-. eauto.
Qed.

Lemma parse_literal_value w v s v' r :
  parse_literal w v s = POk (v', r) -> v' = v.
Proof.
  unfold parse_literal. destruct (strip_prefix w s); [|discriminate].
  intros H; now inv H.
Qed.

Lemma parse_value_object_brace f s m r :
  parse_value f s = POk (VObject m, r) -> exists r', skip_ws s = 123 :: r'.
Proof.
  destruct f as [|f]; simpl; [discriminate|].
  destruct (skip_ws s) as [|c r0]; [discriminate|].
  destruct (N.eqb_spec c 123) as [->|_]; [eauto|].
  intros H. exfalso.
  destruct (c =? 91).
  { destruct (skip_ws r0) as [|d r1]; [discriminate|].
    destruct (d =? 93); [discriminate|].
    apply parse_elements_array in H. destruct H; discriminate. }
  destruct (c =? 34).
  { destruct (parse_string r0 []) as [[? ?]|]; discriminate. }
  repeat match goal with
    | H : (if ?b then _ else _) = _ |- _ => destruct b
    | H : parse_literal _ _ _ = _ |- _ =>
        apply parse_literal_value in H; discriminate
    end.
  destruct (parse_number (c :: r0)) as [[? ?]|]; discriminate.
Qed.

Lemma parse_value_brace_object f r v r' :
  parse_value f (123 :: r) = POk (v, r') -> exists m, v = VObject m.
Proof.
  destruct f as [|f]; simpl; [discriminate|].
  destruct (skip_ws r) as [|d r1]; [discriminate|].
  destruct (d =? 125).
  - intros H; inv H. eauto.
  - apply parse_members_object.
Qed.

Lemma JSON_parse_object_brace s m :
  JSON_parse s = Val (VObject m) -> exists r, skip_ws s = 123 :: r.
Proof.
  unfold JSON_parse.
  destruct (parse_value (parse_fuel s) s) as [[v r]| |] eqn:E; try discriminate.
  destruct (skip_ws r); [|discriminate].
  intros H; inv H. eapply parse_value_object_brace; eassumption.
Qed.

Lemma JSON_parse_brace_object r v :
  JSON_parse (123 :: r) = Val v -> exists m, v = VObject m.
Proof.
  unfold JSON_parse.
  destruct (parse_value (parse_fuel (123 :: r)) (123 :: r))
    as [[v0 r0]| |] eqn:E; try discriminate.
  destruct (skip_ws r0); [|discriminate].
  intros H; inv H. eapply parse_value_brace_object; eassumption.
Qed.

(** ** Fence stripping leaves an opening brace in front *)

Lemma json_ws_is_js_space c : is_json_ws c = true -> is_js_space c = true.
Proof.
  unfold is_json_ws, is_js_space. intros H.
  repeat (apply orb_prop in H; destruct H as [H|H]);
    apply N.eqb_eq in H; subst; reflexivity.
Qed.

Lemma trimStart_brace : forall s r,
  skip_ws s = 123 :: r -> trimStart s = 123 :: r.
Proof.
  unfold skip_ws, trimStart.
  induction s as [|a s IH]; intros r H; simpl in *; [discriminate|].
  destruct (is_json_ws a) eqn:E.
  - rewrite (json_ws_is_js_space _ E). auto.
  - inv H. reflexivity.
Qed.

Lemma trimEnd_brace r : exists r', trimEnd (123 :: r) = 123 :: r'.
Proof.
  simpl. destruct (trimEnd r); simpl; eauto.
Qed.

Lemma replace_trailing_fence_eq s :
  replace_trailing_fence s =
  if fence_to_end s then []
  else match s with
       | [] => []
       | c :: r => c :: replace_trailing_fence r
       end.
Proof. destruct s; reflexivity. Qed.

Lemma replace_trailing_fence_brace r :
  exists r', replace_trailing_fence (123 :: r) = 123 :: r'.
Proof.
  assert (fence_to_end (123 :: r) = false) as E.
  { unfold fence_to_end. simpl.
    destruct (jsstring_eqb (123 :: r) backticks) eqn:E; [|reflexivity].
    apply jsstring_eqb_eq in E. discriminate. }
  rewrite replace_trailing_fence_eq, E. eauto.
Qed.

Lemma clean_brace s r :
  skip_ws s = 123 :: r -> exists r', clean s = 123 :: r'.
Proof.
  intros H. unfold clean, trim. rewrite (trimStart_brace _ _ H).
  destruct (trimEnd_brace r) as [r1 ->].
  change (replace_leading (lit "```json") (123 :: r1)) with (123 :: r1).
  change (replace_leading backticks (123 :: r1)) with (123 :: r1).
  destruct (replace_trailing_fence_brace r1) as [r2 ->].
  change (trimStart (123 :: r2)) with (123 :: r2).
  apply trimEnd_brace.
Qed.

(** When the raw text parses to an object, so does the cleaned text if it
    parses at all. *)
Lemma clean_of_object s m v :
  JSON_parse s = Val (VObject m) -> JSON_parse (clean s) = Val v ->
  exists m', v = VObject m'.
Proof.
  intros H1 H2. apply JSON_parse_object_brace in H1 as [r Hr].
  apply clean_brace in Hr as [r' Hr']. rewrite Hr' in H2.
  eapply JSON_parse_brace_object; eassumption.
Qed.

(** ** The normalizer *)

Section NormalizerFacts.

Variable primary : jsstring.

Lemma accept_as_is_completes v : accept_as_is primary v <> NoFuel.
Proof.
  unfold accept_as_is. destruct v; simpl; try discriminate.
  destruct (obj_get primary m); simpl; [|discriminate].
  destruct (isArray _); discriminate.
Qed.

Lemma direct_parse_completes s : direct_parse primary s <> NoFuel.
Proof.
  unfold direct_parse. pose proof (JSON_parse_total s) as T.
  destruct (JSON_parse s); simpl; try easy. apply accept_as_is_completes.
Qed.

Lemma lenient_parse_completes s : lenient_parse primary s <> NoFuel.
Proof.
  unfold lenient_parse. pose proof (JSON_parse_total s) as T.
  destruct (JSON_parse s) as [v| |]; simpl; try easy.
  destruct (candidate_of v) as [o|]; [|discriminate].
  destruct (truthy (Some o)); [|discriminate].
  destruct o; simpl; try discriminate.
Qed.

(** Only an object is accepted as it is. *)
Lemma accept_as_is_object v w :
  accept_as_is primary v = Val (Some w) -> exists m, v = VObject m.
Proof.
  unfold accept_as_is. destruct v; simpl; try discriminate. eauto.
Qed.

Lemma parseResponse_total text : exists v, parseResponse primary text = Val v.
Proof.
  unfold parseResponse.
  pose proof (direct_parse_completes text) as T1.
  pose proof (direct_parse_completes (clean text)) as T2.
  pose proof (lenient_parse_completes (clean text)) as T3.
  destruct (direct_parse primary text) as [[?|]| |];
    destruct (direct_parse primary (clean text)) as [[?|]| |];
    destruct (lenient_parse primary (clean text)) as [[?|]| |];
    simpl; try easy; eauto.
Qed.

Lemma parseResponse_fallback text :
  ~ returns (direct_parse primary text) ->
  ~ returns (direct_parse primary (clean text)) ->
  ~ returns (lenient_parse primary (clean text)) ->
  parseResponse primary text = Val (fallback primary text).
Proof.
  unfold parseResponse, returns. intros N1 N2 N3.
  pose proof (direct_parse_completes text) as T1.
  pose proof (direct_parse_completes (clean text)) as T2.
  pose proof (lenient_parse_completes (clean text)) as T3.
  destruct (direct_parse primary text) as [[?|]| |];
    try easy; try (exfalso; apply N1; eauto; fail);
    destruct (direct_parse primary (clean text)) as [[?|]| |];
    try easy; try (exfalso; apply N2; eauto; fail);
    destruct (lenient_parse primary (clean text)) as [[?|]| |];
    try easy; try (exfalso; apply N3; eauto; fail).
Qed.

(** A falsy candidate makes the second and the third block run to their
    end or throw. *)
Lemma falsy_candidate_blocks s v :
  JSON_parse s = Val v -> truthy (candidate_of v) = false ->
  ~ returns (direct_parse primary s) /\ ~ returns (lenient_parse primary s).
Proof.
  intros P F. unfold returns, direct_parse, lenient_parse. rewrite P. simpl.
  split; intros [w H].
  - apply accept_as_is_object in H as [m ->]. discriminate.
  - destruct (candidate_of v) as [o|]; [|discriminate].
    rewrite F in H. discriminate.
Qed.

Lemma falsy_candidate_fallback text v :
  JSON_parse (clean text) = Val v -> truthy (candidate_of v) = false ->
  parseResponse primary text = Val (fallback primary text).
Proof.
  intros P F. destruct (falsy_candidate_blocks _ _ P F) as [N2 N3].
  apply parseResponse_fallback; trivial.
  intros [w H]. unfold direct_parse in H.
  destruct (JSON_parse text) as [p| |] eqn:E; try discriminate. simpl in H.
  apply accept_as_is_object in H as [m ->].
  destruct (clean_of_object _ _ _ E P) as [m' ->]. discriminate.
Qed.

(** What the third block and the fallback build has the declared
    shape. *)
Hypothesis primary_not_points : primary <> points_key.

Lemma response_well_formed p l :
  forallb is_string l = true -> well_formed primary (response primary p l) = true.
Proof.
  intros H. unfold well_formed, response. simpl.
  assert (jsstring_eqb primary primary = true) as -> by now apply jsstring_eqb_eq.
  destruct (jsstring_eqb points_key primary) eqn:E.
  { apply jsstring_eqb_eq in E. congruence. }
  exact H.
Qed.

Lemma filter_is_string l : forallb is_string (filter is_string l) = true.
Proof.
  apply forallb_forall. intros x Hx. now apply filter_In in Hx.
Qed.

Lemma lenient_parse_well_formed s v :
  lenient_parse primary s = Val (Some v) -> well_formed primary v = true.
Proof.
  unfold lenient_parse. destruct (JSON_parse s) as [w| |]; try discriminate.
  simpl. destruct (candidate_of w) as [o|]; [|discriminate].
  destruct (truthy (Some o)); [|discriminate].
  destruct (get_prop o primary) as [p| |]; try discriminate. simpl.
  destruct (get_prop o points_key) as [pts| |]; try discriminate. simpl.
  intros H; inv H. apply response_well_formed.
  destruct pts as [[]|]; try reflexivity. apply filter_is_string.
Qed.

(** The result is well-formed whenever neither direct parse returned. *)
Lemma parseResponse_well_formed text v :
  ~ returns (direct_parse primary text) ->
  ~ returns (direct_parse primary (clean text)) ->
  parseResponse primary text = Val v -> well_formed primary v = true.
Proof.
  unfold parseResponse, returns. intros N1 N2.
  destruct (direct_parse primary text) as [[?|]| |];
    try easy; try (exfalso; apply N1; eauto; fail);
    destruct (direct_parse primary (clean text)) as [[?|]| |];
    try easy; try (exfalso; apply N2; eauto; fail);
    destruct (lenient_parse primary (clean text)) as [[?|]| |] eqn:E;
    simpl; try easy; intros H; inv H;
    try (now apply lenient_parse_well_formed with (s := clean text));
    now apply response_well_formed.
Qed.

End NormalizerFacts.

(** The fenced example: the second [try] block accepts the cleaned text. *)
Example fenced_block_is_stripped :
  parseTranslationResponse
    (js "```json" ++ [10] ++ js "{'translation':'cat','points':['a','b']}"
       ++ [10] ++ js "```")
  = Val (VObject [(lit "translation", VString (js "cat"));
                  (lit "points", VArray [VString (js "a"); VString (js "b")])]).
Proof. vm_compute. reflexivity. Qed.

(** C2.  The normalizer is total: for every input string both
    [parseTranslationResponse] and [parseExplanationResponse] complete
    with a value; they neither throw nor fail to terminate. *)
Theorem normalizer_total : forall text,
  (exists v, parseTranslationResponse text = Val v) /\
  (exists v, parseExplanationResponse text = Val v).
Proof.
  intros text. split; apply parseResponse_total.
Qed.

(** C6.  When none of the three [try] blocks returns (direct parse of the
    raw text, direct parse of the fence-stripped text, lenient parse of
    the fence-stripped text), the result has the raw input text itself,
    not the cleaned text, as its primary field and no points; so for
    "not json at all", and for a text with blanks around it. *)
Theorem fallback_returns_raw_text :
  (forall text,
      ~ returns (direct_parse (lit "translation") text) ->
      ~ returns (direct_parse (lit "translation") (clean text)) ->
      ~ returns (lenient_parse (lit "translation") (clean text)) ->
      parseTranslationResponse text =
        Val (VObject [(lit "translation", VString text);
                      (lit "points", VArray [])])) /\
  (forall text,
      ~ returns (direct_parse (lit "summary") text) ->
      ~ returns (direct_parse (lit "summary") (clean text)) ->
      ~ returns (lenient_parse (lit "summary") (clean text)) ->
      parseExplanationResponse text =
        Val (VObject [(lit "summary", VString text);
                      (lit "points", VArray [])])) /\
  parseTranslationResponse (js "not json at all") =
    Val (VObject [(lit "translation", VString (js "not json at all"));
                  (lit "points", VArray [])]) /\
  parseExplanationResponse (js "  not json ``` ") =
    Val (VObject [(lit "summary", VString (js "  not json ``` "));
                  (lit "points", VArray [])]).
Proof.
  repeat split; try (intros; now apply parseResponse_fallback);
    vm_compute; reflexivity.
Qed.

Lemma fallback_returns_raw_text_witness :
  ~ returns (direct_parse (lit "summary") (js "oops")) /\
  ~ returns (direct_parse (lit "summary") (clean (js "oops"))) /\
  ~ returns (lenient_parse (lit "summary") (clean (js "oops"))) /\
  parseExplanationResponse (js "oops") =
    Val (VObject [(lit "summary", VString (js "oops"));
                  (lit "points", VArray [])]).
Proof.
  assert (forall b : block, b = Throw SyntaxError -> ~ returns b) as K.
  { intros b -> [v H]. discriminate. }
  split; [apply K; vm_compute; reflexivity|].
  split; [apply K; vm_compute; reflexivity|].
  split; [apply K; vm_compute; reflexivity|].
  apply (proj1 (proj2 fallback_returns_raw_text));
    apply K; vm_compute; reflexivity.
Defined.

(** C7.  For the text [[{"summary":"x","points":["p1",{"bad":1},"p2"]}]]
    neither direct parse returns; the lenient parse takes the first
    element of the array, keeps its string summary and the string
    elements of its points, and the normalizer returns
    [{summary: "x", points: ["p1", "p2"]}].  (The translation normalizer,
    finding no string under its own primary field, returns the empty
    string with the same points.) *)
Theorem lenient_parse_drops_nested_object :
  let text := js "[{'summary':'x','points':['p1',{'bad':1},'p2']}]" in
  direct_parse (lit "summary") text = Val None /\
  clean text = text /\
  JSON_parse (clean text) =
    Val (VArray
           [VObject
              [(lit "summary", VString (js "x"));
               (lit "points",
                VArray [VString (js "p1");
                        VObject [(lit "bad", VNumber (Num false 1 0))];
                        VString (js "p2")])]]) /\
  lenient_parse (lit "summary") (clean text) =
    Val (Some (VObject [(lit "summary", VString (js "x"));
                        (lit "points",
                         VArray [VString (js "p1"); VString (js "p2")])])) /\
  parseExplanationResponse text =
    Val (VObject [(lit "summary", VString (js "x"));
                  (lit "points",
                   VArray [VString (js "p1"); VString (js "p2")])]) /\
  parseTranslationResponse text =
    Val (VObject [(lit "translation", VString []);
                  (lit "points",
                   VArray [VString (js "p1"); VString (js "p2")])]).
Proof.
  vm_compute. repeat split.
Qed.

(** C10.  When the fence-stripped text parses as JSON and the candidate
    taken from the parsed value (its first element if it is an array, else
    the value itself) is falsy or missing, the normalizer returns the
    fallback: the raw input text as primary field and no points. *)
Theorem falsy_candidate_gives_fallback : forall text v,
  JSON_parse (clean text) = Val v ->
  truthy (candidate_of v) = false ->
  parseTranslationResponse text =
    Val (VObject [(lit "translation", VString text);
                  (lit "points", VArray [])]) /\
  parseExplanationResponse text =
    Val (VObject [(lit "summary", VString text); (lit "points", VArray [])]).
Proof.
  intros text v P F. split; now apply falsy_candidate_fallback with (v := v).
Qed.

Lemma falsy_candidate_gives_fallback_witness :
  (parseTranslationResponse (js "[]") =
     Val (VObject [(lit "translation", VString (js "[]"));
                   (lit "points", VArray [])])) /\
  (parseTranslationResponse (js "null") =
     Val (VObject [(lit "translation", VString (js "null"));
                   (lit "points", VArray [])])) /\
  (parseTranslationResponse (js "0") =
     Val (VObject [(lit "translation", VString (js "0"));
                   (lit "points", VArray [])])) /\
  (parseExplanationResponse (js "false") =
     Val (VObject [(lit "summary", VString (js "false"));
                   (lit "points", VArray [])])) /\
  (parseExplanationResponse (js "''") =
     Val (VObject [(lit "summary", VString (js "''"));
                   (lit "points", VArray [])])) /\
  (parseExplanationResponse (js "``` [null, 1] ```") =
     Val (VObject [(lit "summary", VString (js "``` [null, 1] ```"));
                   (lit "points", VArray [])])).
Proof.
  split; [|split; [|split; [|split; [|split]]]].
  - apply (falsy_candidate_gives_fallback (js "[]") (VArray [])); reflexivity.
  - apply (falsy_candidate_gives_fallback (js "null") VNull); reflexivity.
  - apply (falsy_candidate_gives_fallback (js "0") (VNumber (Num false 0 0)));
      reflexivity.
  - apply (falsy_candidate_gives_fallback (js "false") (VBool false));
      reflexivity.
  - apply (falsy_candidate_gives_fallback (js "''") (VString [])); reflexivity.
  - apply (falsy_candidate_gives_fallback (js "``` [null, 1] ```")
             (VArray [VNull; VNumber (Num false 1 0)])); reflexivity.
Defined.

(** C1.  The result is not always well-formed: a text that is accepted as
    it is by the first [try] block is returned unfiltered, here with a
    nested object among its points and, in the second text, with a
    primary field that is not a string. *)
Theorem accepted_as_is_not_well_formed :
  parseTranslationResponse (js "{'translation':'t','points':['a',{'bad':1}]}") =
    Val (VObject
           [(lit "translation", VString (js "t"));
            (lit "points",
             VArray [VString (js "a");
                     VObject [(lit "bad", VNumber (Num false 1 0))]])]) /\
  parseExplanationResponse (js "{'summary':null,'points':[]}") =
    Val (VObject [(lit "summary", VNull); (lit "points", VArray [])]) /\
  well_formed (lit "translation")
    (VObject
       [(lit "translation", VString (js "t"));
        (lit "points",
         VArray [VString (js "a");
                 VObject [(lit "bad", VNumber (Num false 1 0))]])]) = false /\
  well_formed (lit "summary")
    (VObject [(lit "summary", VNull); (lit "points", VArray [])]) = false.
Proof.
  vm_compute. repeat split.
Qed.

(** ** The route handlers *)

Local Ltac run_net :=
  unfold POST, POST_try, dispatch, ncatch, nbind, lift, fetch, nret, run in *.

Lemma get_prop_completes v k : get_prop v k <> NoFuel.
Proof. destruct v; discriminate. Qed.

Section RouteFacts.

Variable op : operation.
Variable upstream : generate_request -> exn + upstream_response.


(** With a key, a request whose text is absent or falsy is answered 400
    and nothing is sent. *)
Lemma POST_text_required key k request_body request :
  nonempty key = Some k ->
  JSON_parse request_body = Val request ->
  request <> VNull ->
  (forall t, get_prop request (lit "text") = Val t -> truthy t = false) ->
  run (POST op key upstream request_body)
    = (Val {| resp_body := ErrorBody (Literal text_required_message);
              resp_status := 400 |}, []).
Proof.
  intros K P N F. run_net. rewrite P. simpl.
  destruct request; try easy; simpl in *; rewrite K;
    try reflexivity.
  specialize (F _ eq_refl).
  destruct (obj_get (lit "text") m); [|reflexivity].
  rewrite F. reflexivity.
Qed.

(** The handler sends at most one request upstream. *)
Lemma POST_log key request_body resp log :
  run (POST op key upstream request_body) = (resp, log) ->
  log = [] \/ exists q, log = [q].
Proof.
  run_net. unfold stringify_all. simpl.
  repeat (inner_destruct; simpl); intros H; inv H; eauto.
Qed.

End RouteFacts.


Example errorMessage_other_status :
  errorMessage 503 (js "unavailable") = js "API error (503): unavailable".
Proof. vm_compute. reflexivity. Qed.



Lemma NextResponse_json_completes b status :
  NextResponse_json b status <> NoFuel.
Proof.
  unfold NextResponse_json. repeat break_match; discriminate.
Qed.

Lemma NextResponse_json_val b status a :
  NextResponse_json b status = Val a ->
  a = {| resp_body := b; resp_status := status |}.
Proof.
  unfold NextResponse_json. repeat break_match; congruence.
Qed.








(** ** The dispatcher *)

Lemma getGeminiSettings_total b : exists s, getGeminiSettings b = Val s.
Proof.
  unfold getGeminiSettings. destruct (has_window b); simpl; [|eauto].
  destruct (stored_settings b) as [e|stored]; simpl; [eauto|].
  destruct (nonempty stored) as [str|]; simpl; [|eauto].
  pose proof (JSON_parse_total str) as T.
  destruct (JSON_parse str) as [parsed| |]; simpl; try easy; [|eauto].
  destruct parsed; simpl; eauto.
Qed.

Section DispatcherFacts.

Variable b : browser.
Variable backend : api_request -> exn + api_response.
Variables (url : jsstring) (pick : GeminiSettings -> value)
          (failed : jsstring).

(** Whatever the text, exactly one request goes out, and it carries the
    text as given. *)
Lemma dispatch_one_request text contextBefore contextAfter modelOverride :
  exists outcome model,
    run (dispatch b backend url pick failed
           text contextBefore contextAfter modelOverride)
      = (outcome,
         [{| api_url := url; api_text := text;
             api_contextBefore := contextBefore;
             api_contextAfter := contextAfter;
             api_model := model |}]).
Proof.
  run_net. destruct (getGeminiSettings_total b) as [st ->]. simpl.
  unfold stringify_all.
  repeat (inner_destruct; simpl); eauto.
Qed.

(** A refusal of the backend is raised with the backend's message. *)
Lemma dispatch_relays_error text contextBefore contextAfter modelOverride
      r m c msg :
  (forall q, backend q = inr r) ->
  ok (api_status r) = false ->
  api_json r = inr (VObject m) ->
  obj_get (lit "error") m = Some (VString (c :: msg)) ->
  fst (run (dispatch b backend url pick failed
              text contextBefore contextAfter modelOverride))
    = Throw (Error (VString (c :: msg))).
Proof.
  intros B O J E. run_net.
  destruct (getGeminiSettings_total b) as [st ->]. simpl.
  rewrite B. simpl. rewrite O. simpl. rewrite J. simpl. rewrite E.
  reflexivity.
Qed.

End DispatcherFacts.

(** C3, as the code has it.  The dispatcher ([translateWithGemini],
    [explainDirectly]) does not inspect its text: for every text, the
    empty one included, it sends exactly one request, to its backend
    endpoint and with the text as given.  It fails for an empty text only
    through the answer of the backend: a response that is not [ok] and
    whose JSON body has a non-empty string [error] makes it throw an
    Error with that message. *)
Theorem dispatcher_always_sends :
  forall b backend text contextBefore contextAfter modelOverride,
    (exists outcome model,
        run (translateWithGemini b backend
               text contextBefore contextAfter modelOverride)
          = (outcome,
             [{| api_url := lit "/api/gemini/translate"; api_text := text;
                 api_contextBefore := contextBefore;
                 api_contextAfter := contextAfter;
                 api_model := model |}])) /\
    (exists outcome model,
        run (explainDirectly b backend
               text contextBefore contextAfter modelOverride)
          = (outcome,
             [{| api_url := lit "/api/gemini/explain"; api_text := text;
                 api_contextBefore := contextBefore;
                 api_contextAfter := contextAfter;
                 api_model := model |}])) /\
    (forall r m c msg,
        (forall q, backend q = inr r) ->
        ok (api_status r) = false ->
        api_json r = inr (VObject m) ->
        obj_get (lit "error") m = Some (VString (c :: msg)) ->
        fst (run (translateWithGemini b backend
                    text contextBefore contextAfter modelOverride))
          = Throw (Error (VString (c :: msg))) /\
        fst (run (explainDirectly b backend
                    text contextBefore contextAfter modelOverride))
          = Throw (Error (VString (c :: msg)))).
Proof.
  intros. split; [apply dispatch_one_request|].
  split; [apply dispatch_one_request|].
  intros r m c msg B O J E.
  split; eapply dispatch_relays_error; eassumption.
Qed.

Lemma dispatcher_always_sends_witness :
  let b := {| has_window := true; stored_settings := inr None |} in
  let r := {| api_status := 400;
              api_json := inr (VObject [(lit "error",
                                         VString (lit "Text required"))]) |} in
  fst (run (explainDirectly b (fun _ => inr r) [] [] [] None))
    = Throw (Error (VString (lit "Text required"))).
Proof.
  intros b r.
  apply (proj2 (proj2 (dispatcher_always_sends b (fun _ => inr r) [] [] [] None))
           r [(lit "error", VString (lit "Text required"))]
           84 (lit "ext required")).
  - reflexivity.
  - reflexivity.
  - reflexivity.
  - reflexivity.
Defined.

(** C3, as stated, fails: called with an empty text, the dispatcher has
    sent a request by the time it fails, and the failure is the one the
    backend reported. *)
Lemma dispatch_empty_text_counterexample :
  run (translateWithGemini
         {| has_window := true; stored_settings := inr None |}
         (fun _ =>
            inr {| api_status := 400;
                   api_json := inr (VObject [(lit "error",
                                              VString (lit "Text required"))]) |})
         [] [] [] None)
    = (Throw (Error (VString (lit "Text required"))),
       [{| api_url := lit "/api/gemini/translate"; api_text := [];
           api_contextBefore := []; api_contextAfter := [];
           api_model := VString (lit "gemini-2.0-flash") |}]).
Proof.
  vm_compute. reflexivity.
Qed.

(** ** The context menu *)

(** C8.  When the window holds a selection that is not collapsed, whose
    trimmed text is not empty, and whose first range has its common
    ancestor inside the existing viewer element, [handleContextMenu]
    prevents the default action of the event and sets the position to the
    client coordinates of the event. *)
Theorem handleContextMenu_opens :
  forall (number_t node : Type) (pg : page node)
         (e : MouseEvent number_t)
         (contextMenuPosition : option (ContextMenuPosition number_t))
         (windowSelection : selection node) (rg : range node)
         (pdfViewer : node),
    getSelection node pg = Some windowSelection ->
    isCollapsed node windowSelection = false ->
    trim (toString node windowSelection) <> [] ->
    nth_error (ranges node windowSelection) 0 = Some rg ->
    pdf_viewer_container node pg = Some pdfViewer ->
    contains node pg pdfViewer (commonAncestorContainer node rg) = true ->
    exists e' position,
      handleContextMenu pg e contextMenuPosition = Val (e', Some position) /\
      defaultPrevented number_t e' = true /\
      pos_x position = clientX number_t e /\
      pos_y position = clientY number_t e.
Proof.
  intros until pdfViewer. intros S C T R V I.
  unfold handleContextMenu. rewrite S, C.
  destruct (trim (toString node windowSelection)); [contradiction|].
  rewrite R, V, I. simpl.
  eexists. eexists. split; [reflexivity|]. repeat split.
Qed.

Lemma handleContextMenu_opens_witness :
  let sel := {| isCollapsed := false; toString := js " word ";
                ranges := [{| commonAncestorContainer := 7%nat |}] |} in
  let pg := {| getSelection := Some sel; pdf_viewer_container := Some 1%nat;
               contains := fun a c => Nat.leb a c |} in
  let e := {| clientX := 120%Z; clientY := 45%Z; defaultPrevented := false |} in
  exists e' position,
    handleContextMenu pg e None = Val (e', Some position) /\
    defaultPrevented Z e' = true /\
    pos_x position = 120%Z /\ pos_y position = 45%Z.
Proof.
  intros sel pg e.
  apply (handleContextMenu_opens Z nat pg e None sel
           {| commonAncestorContainer := 7%nat |} 1%nat).
  - reflexivity.
  - reflexivity.
  - vm_compute. discriminate.
  - reflexivity.
  - reflexivity.
  - reflexivity.
Defined.

(** C9.  [closeContextMenu] has an empty body: an open menu stays open,
    the position is not cleared.  On a closed menu it leaves the position
    null. *)
Theorem closeContextMenu_keeps_position :
  closeContextMenu (Some {| pos_x := 120%Z; pos_y := 45%Z |})
    = Some {| pos_x := 120%Z; pos_y := 45%Z |} /\
  closeContextMenu (@None (ContextMenuPosition Z)) = None /\
  (forall (number_t : Type) (p : option (ContextMenuPosition number_t)),
      closeContextMenu p = p).
Proof.
  repeat split.
Qed.

(** * Further properties of the code *)

(** ** Settings: what is saved is read back *)

Lemma hex_digit_val d : d < 16 -> hex_val (hex_digit d) = Some d.
Proof.
  intros H.
  assert (d = 0 \/ d = 1 \/ d = 2 \/ d = 3 \/ d = 4 \/ d = 5 \/ d = 6 \/ d = 7
          \/ d = 8 \/ d = 9 \/ d = 10 \/ d = 11 \/ d = 12 \/ d = 13 \/ d = 14
          \/ d = 15) as K by lia.
  repeat (destruct K as [->|K]; [reflexivity|]). subst. reflexivity.
Qed.

Lemma UnicodeEscape_digits c :
  c < 65536 ->
  hex4 (hex_digit (c / 4096)) (hex_digit ((c / 256) mod 16))
       (hex_digit ((c / 16) mod 16)) (hex_digit (c mod 16)) = Some c.
Proof.
  intros H. unfold hex4.
  rewrite !hex_digit_val;
    try (apply N.mod_lt; discriminate);
    try (apply N.Div0.div_lt_upper_bound; lia).
  f_equal.
  pose proof (N.Div0.div_mod c 16) as E0.
  pose proof (N.Div0.div_mod (c / 16) 16) as E1.
  rewrite N.Div0.div_div in E1. change (16 * 16) with 256 in E1.
  pose proof (N.Div0.div_mod (c / 256) 16) as E2.
  rewrite N.Div0.div_div in E2. change (256 * 16) with 4096 in E2.
  lia.
Qed.

Lemma parse_string_escape e x r acc :
  e <> 117 -> escape_char e = Some x ->
  parse_string (92 :: e :: r) acc = parse_string r (x :: acc).
Proof.
  intros N E. simpl. destruct (N.eqb_spec e 117); [contradiction|].
  rewrite E. reflexivity.
Qed.

Lemma parse_string_unicode a b c d u r acc :
  hex4 a b c d = Some u ->
  parse_string (92 :: 117 :: a :: b :: c :: d :: r) acc
    = parse_string r (u :: acc).
Proof.
  intros E. simpl. rewrite E. reflexivity.
Qed.

Lemma parse_string_raw c r acc :
  c <> 34 -> c <> 92 -> 32 <= c ->
  parse_string (c :: r) acc = parse_string r (c :: acc).
Proof.
  intros A B C. simpl.
  destruct (N.eqb_spec c 34); [contradiction|].
  destruct (N.eqb_spec c 92); [contradiction|].
  destruct (N.ltb_spec c 32); [lia|]. reflexivity.
Qed.

(** The parser reads back one quoted code point. *)
Lemma quote_unit_parse c r acc :
  parse_string (quote_unit c ++ r) acc = parse_string r (c :: acc).
Proof.
  unfold quote_unit.
  repeat match goal with
    | |- context [if N.eqb c ?k then _ else _] =>
        destruct (N.eqb_spec c k);
          [subst; apply parse_string_escape; [discriminate|reflexivity]|]
    end.
  destruct ((c <? 32) || is_leading_surrogate c || is_trailing_surrogate c)
    eqn:E.
  - unfold UnicodeEscape. simpl app. apply parse_string_unicode.
    apply UnicodeEscape_digits.
    unfold is_leading_surrogate, is_trailing_surrogate in E.
    repeat (apply orb_prop in E; destruct E as [E|E]);
      try (apply N.ltb_lt in E; lia);
      apply andb_prop in E; destruct E as [_ E]; apply N.leb_le in E; lia.
  - apply orb_false_elim in E as [E _]. apply orb_false_elim in E as [E _].
    apply N.ltb_ge in E. simpl app. now apply parse_string_raw.
Qed.

Lemma quote_units_parse_aux : forall n s,
  (List.length s <= n)%nat -> forall r acc,
  parse_string (quote_units s ++ 34 :: r) acc = Some (rev acc ++ s, r).
Proof.
  induction n as [|n IH]; intros s L r acc;
    (destruct s as [|c s]; simpl in L;
     [simpl; rewrite app_nil_r; reflexivity|]); [lia|].
  assert (forall t, (List.length t <= n)%nat ->
            parse_string ((quote_unit c ++ quote_units t) ++ 34 :: r) acc
              = Some (rev acc ++ c :: t, r)) as K.
  { intros t Lt. rewrite <- app_assoc, quote_unit_parse, IH by exact Lt.
    simpl. rewrite <- app_assoc. reflexivity. }
  simpl quote_units. destruct (is_leading_surrogate c) eqn:Hc; [|apply K; lia].
  destruct s as [|d s].
  - specialize (K [] (Nat.le_0_l n)). simpl quote_units in K.
    rewrite app_nil_r in K. exact K.
  - destruct (is_trailing_surrogate d) eqn:Hd; [|apply K; simpl in *; lia].
    unfold is_leading_surrogate in Hc. unfold is_trailing_surrogate in Hd.
    apply andb_prop in Hc as [Hc _]. apply andb_prop in Hd as [Hd _].
    apply N.leb_le in Hc, Hd. simpl app.
    rewrite parse_string_raw by lia. rewrite parse_string_raw by lia.
    rewrite IH by (simpl in L; lia).
    simpl. rewrite <- !app_assoc. reflexivity.
Qed.

(** [JSON.parse] undoes QuoteJSONString: any string, with quotes,
    backslashes, control characters and lone surrogates, is read back as
    it was. *)
Lemma QuoteJSONString_parse s r :
  parse_string (quote_units s ++ 34 :: r) [] = Some (s, r).
Proof.
  apply (quote_units_parse_aux (List.length s)). lia.
Qed.

Lemma parse_value_string f v t :
  parse_value (S f) (34 :: quote_units v ++ 34 :: t) = POk (VString v, t).
Proof.
  simpl. rewrite QuoteJSONString_parse. reflexivity.
Qed.

Lemma member_text_app k v t :
  member_text (k, v) ++ t
  = 34 :: quote_units k ++ 34 :: 58 :: 34 :: quote_units v ++ 34 :: t.
Proof.
  unfold member_text, QuoteJSONString. simpl.
  rewrite <- !app_assoc. simpl. rewrite <- !app_assoc. reflexivity.
Qed.

(** One member followed by a comma, and the last member. *)
Lemma parse_member_comma f k v r acc :
  parse_members (S (S f)) (member_text (k, v) ++ 44 :: r) acc
  = parse_members (S f) r (obj_set k (VString v) acc).
Proof.
  rewrite member_text_app. remember (S f) as g. simpl.
  rewrite QuoteJSONString_parse. simpl. subst g.
  rewrite parse_value_string. reflexivity.
Qed.

Lemma parse_member_last f k v r acc :
  parse_members (S (S f)) (member_text (k, v) ++ 125 :: r) acc
  = POk (VObject (obj_set k (VString v) acc), r).
Proof.
  rewrite member_text_app. remember (S f) as g. simpl.
  rewrite QuoteJSONString_parse. simpl. subst g.
  rewrite parse_value_string. reflexivity.
Qed.

Lemma parse_members_strings : forall m acc f r,
  m <> [] -> (List.length m < f)%nat ->
  parse_members f (join_comma (map member_text m) ++ 125 :: r) acc
  = POk (VObject (string_members m acc), r).
Proof.
  induction m as [|[k v] m IH]; intros acc f r N L; [contradiction|].
  destruct f as [|[|f]]; simpl in L; try lia.
  destruct m as [|kv m].
  - simpl. apply parse_member_last.
  - change (join_comma (map member_text ((k, v) :: kv :: m)))
      with (member_text (k, v) ++ 44 :: join_comma (map member_text (kv :: m))).
    rewrite <- app_assoc. simpl app at 2. rewrite parse_member_comma.
    rewrite IH; [reflexivity|discriminate|simpl in *; lia].
Qed.

Lemma join_comma_length m :
  (List.length m <= List.length (join_comma (map member_text m)))%nat.
Proof.
  induction m as [|[k v] m IH]; [simpl; lia|].
  destruct m as [|kv m].
  - simpl. lia.
  - change (join_comma (map member_text ((k, v) :: kv :: m)))
      with (member_text (k, v) ++ 44 :: join_comma (map member_text (kv :: m))).
    rewrite length_app. simpl List.length in *. lia.
Qed.

(** [JSON.parse(JSON.stringify(o))] for an object [o] of string
    properties: the properties come back with their values; of a repeated
    key the last value stays. *)
Lemma JSON_parse_stringify_strings m :
  JSON_parse (JSON_stringify_strings m) = Val (VObject (string_members m [])).
Proof.
  destruct m as [|[k v] m]; [reflexivity|].
  unfold JSON_parse.
  assert (parse_value (parse_fuel (JSON_stringify_strings ((k, v) :: m)))
            (JSON_stringify_strings ((k, v) :: m))
          = POk (VObject (string_members ((k, v) :: m) []), [])) as ->;
    [|reflexivity].
  unfold parse_fuel, JSON_stringify_strings.
  pose proof (join_comma_length ((k, v) :: m)) as L.
  assert (exists t, join_comma (map member_text ((k, v) :: m)) = 34 :: t)
    as [t Ht].
  { destruct m; simpl; unfold member_text, QuoteJSONString; simpl; eauto. }
  remember (join_comma (map member_text ((k, v) :: m))) as body eqn:B.
  set (s := 123 :: body ++ [125]).
  replace (2 * List.length s + 1)%nat with (S (2 * List.length s)) by lia.
  subst s. rewrite Ht at 2.
  change (parse_value (S (2 * List.length (123 :: body ++ [125])))
            (123 :: (34 :: t) ++ [125]))
    with (parse_members (2 * List.length (123 :: body ++ [125]))
            ((34 :: t) ++ [125]) []).
  rewrite <- Ht. subst body.
  apply parse_members_strings; [discriminate|].
  remember (join_comma (map member_text ((k, v) :: m))) as body.
  simpl List.length in *. rewrite length_app. simpl List.length. lia.
Qed.

Lemma or_default_truthy a d :
  truthy (Some d) = true -> truthy (Some (or_default a d)) = true.
Proof.
  intros D. unfold or_default. destruct a as [v|]; [|exact D].
  destruct (truthy (Some v)) eqn:E; [exact E|exact D].
Qed.

Lemma getGeminiSettings_truthy b :
  exists st,
    getGeminiSettings b = Val st /\
    s_apiKey st = [] /\
    truthy (Some (s_model st)) = true /\
    truthy (Some (s_explanationModel st)) = true.
Proof.
  unfold getGeminiSettings.
  assert (exists st, Val DEFAULT_GEMINI_SETTINGS = Val st /\
            s_apiKey st = [] /\ truthy (Some (s_model st)) = true /\
            truthy (Some (s_explanationModel st)) = true) as D
    by (eexists; repeat split).
  destruct (has_window b); simpl; [|exact D].
  destruct (stored_settings b) as [e|stored]; simpl; [exact D|].
  destruct (nonempty stored) as [str|]; simpl; [|exact D].
  pose proof (JSON_parse_total str) as T.
  destruct (JSON_parse str) as [parsed| |]; simpl; try easy.
  destruct parsed; simpl; try exact D.
  eexists. split; [reflexivity|]. simpl.
  repeat split; apply or_default_truthy; reflexivity.
Qed.

(** X1.  [getGeminiSettings] never throws; the settings it returns have
    an empty API key, and a model and an explanation model that are never
    falsy, whatever the storage holds. *)
Theorem getGeminiSettings_invariant : forall b,
  exists st,
    getGeminiSettings b = Val st /\
    s_apiKey st = [] /\
    truthy (Some (s_model st)) = true /\
    truthy (Some (s_explanationModel st)) = true.
Proof.
  exact getGeminiSettings_truthy.
Qed.

(** X2.  [getGeminiSettings] returns the default settings whenever it
    cannot read an object from the storage: outside a browser, when
    [getItem] throws, when nothing or the empty string is stored, when the
    stored text is not JSON, and when it is JSON but not an object. *)
Theorem getGeminiSettings_defaults : forall b,
  (forall str m,
      has_window b = true ->
      stored_settings b = inr (Some str) ->
      JSON_parse str <> Val (VObject m)) ->
  getGeminiSettings b = Val DEFAULT_GEMINI_SETTINGS.
Proof.
  intros b H. unfold getGeminiSettings.
  destruct (has_window b); simpl; [|reflexivity].
  destruct (stored_settings b) as [e|[str|]]; simpl; try reflexivity.
  destruct str as [|c str]; simpl; [reflexivity|].
  specialize (H (c :: str)).
  pose proof (JSON_parse_total (c :: str)) as T.
  destruct (JSON_parse (c :: str)) as [parsed| |]; simpl; try easy.
  destruct parsed; simpl; try reflexivity.
  exfalso. apply (H m); reflexivity.
Qed.

Lemma getGeminiSettings_defaults_witness :
  getGeminiSettings {| has_window := true;
                       stored_settings := inr (Some (js "[1, 2")) |}
  = Val DEFAULT_GEMINI_SETTINGS.
Proof.
  apply getGeminiSettings_defaults. simpl. intros str m _ E.
  injection E as <-. vm_compute. discriminate.
Defined.

(** X3.  Settings that [saveGeminiSettings] stored are read back by
    [getGeminiSettings]: the model and the explanation model are the
    strings that were saved, whatever characters they contain, with the
    default model in place of an empty string; the saved API key is not
    read back. *)
Theorem saved_settings_are_read_back : forall b setItem settings,
  has_window b = true ->
  setItem (settings_json settings) = inr tt ->
  getGeminiSettings (saveGeminiSettings b setItem settings)
  = Val {| s_apiKey := [];
           s_model :=
             VString match ts_model settings with
                     | [] => DEFAULT_GEMINI_MODEL
                     | _ :: _ => ts_model settings
                     end;
           s_explanationModel :=
             VString match ts_explanationModel settings with
                     | [] => DEFAULT_GEMINI_EXPLANATION_MODEL
                     | _ :: _ => ts_explanationModel settings
                     end |}.
Proof.
  intros b setItem settings W S.
  assert (saveGeminiSettings b setItem settings
          = {| has_window := true;
               stored_settings := inr (Some (settings_json settings)) |}) as ->.
  { unfold saveGeminiSettings. rewrite W, S. reflexivity. }
  unfold getGeminiSettings. cbn [has_window stored_settings negb of_sum bind].
  change (nonempty (Some (settings_json settings)))
    with (Some (settings_json settings)).
  unfold settings_json. cbv beta iota. rewrite JSON_parse_stringify_strings.
  destruct settings as [a m e]. destruct m, e; reflexivity.
Qed.

Lemma saved_settings_are_read_back_witness :
  getGeminiSettings
    (saveGeminiSettings
       {| has_window := true; stored_settings := inr None |}
       (fun _ => inr tt)
       {| ts_apiKey := lit "secret";
          ts_model := js "gemini-2.5-pro";
          ts_explanationModel := [] |})
  = Val {| s_apiKey := [];
           s_model := VString (js "gemini-2.5-pro");
           s_explanationModel := VString DEFAULT_GEMINI_EXPLANATION_MODEL |}.
Proof.
  apply (saved_settings_are_read_back
           {| has_window := true; stored_settings := inr None |}
           (fun _ => inr tt)
           {| ts_apiKey := lit "secret";
              ts_model := js "gemini-2.5-pro";
              ts_explanationModel := [] |}); reflexivity.
Defined.

(** ** The normalizer, beyond the fallback *)

Section NormalizerMore.

Variable primary : jsstring.

Lemma accept_as_is_inv v w :
  accept_as_is primary v = Val (Some w) ->
  w = v /\ exists m pv l,
    v = VObject m /\ obj_get primary m = Some pv /\
    obj_get points_key m = Some (VArray l).
Proof.
  unfold accept_as_is. destruct v; simpl; try discriminate.
  destruct (obj_get primary m) as [pv|] eqn:P; simpl; [|discriminate].
  destruct (obj_get points_key m) as [[]|] eqn:Q; simpl; try discriminate.
  intros H; inv H. split; [reflexivity|]. eauto 6.
Qed.

Lemma direct_parse_inv s w :
  direct_parse primary s = Val (Some w) ->
  JSON_parse s = Val w /\ exists m pv l,
    w = VObject m /\ obj_get primary m = Some pv /\
    obj_get points_key m = Some (VArray l).
Proof.
  unfold direct_parse. destruct (JSON_parse s) as [v| |]; try discriminate.
  simpl. intros H. apply accept_as_is_inv in H as [-> H]. auto.
Qed.

Lemma direct_parse_accepts s m pv l :
  JSON_parse s = Val (VObject m) ->
  obj_get primary m = Some pv ->
  obj_get points_key m = Some (VArray l) ->
  direct_parse primary s = Val (Some (VObject m)).
Proof.
  intros P A B. unfold direct_parse, accept_as_is. rewrite P. simpl.
  rewrite A. simpl. rewrite B. reflexivity.
Qed.

(** Every result is the parsed text itself or was built by the third
    block or the fallback. *)
Lemma parseResponse_cases text v :
  parseResponse primary text = Val v ->
  direct_parse primary text = Val (Some v) \/
  direct_parse primary (clean text) = Val (Some v) \/
  (~ returns (direct_parse primary text) /\
   ~ returns (direct_parse primary (clean text))).
Proof.
  unfold parseResponse, returns.
  destruct (direct_parse primary text) as [[?|]| |]; simpl;
    try (intros H; inv H; auto; fail);
    destruct (direct_parse primary (clean text)) as [[?|]| |]; simpl;
    try (intros H; inv H; auto; fail);
    intros _; right; right; split; intros [w H]; discriminate.
Qed.

End NormalizerMore.

(** X4.  Whatever the input, the result of either normalizer is an object
    that has its primary field ([translation] or [summary], with some
    value) and a [points] field that is an array. *)
Theorem normalizer_result_has_fields : forall text,
  (exists m pv l,
      parseTranslationResponse text = Val (VObject m) /\
      obj_get (lit "translation") m = Some pv /\
      obj_get (lit "points") m = Some (VArray l)) /\
  (exists m pv l,
      parseExplanationResponse text = Val (VObject m) /\
      obj_get (lit "summary") m = Some pv /\
      obj_get (lit "points") m = Some (VArray l)).
Proof.
  assert (forall p, p <> points_key -> forall text,
            exists m pv l,
              parseResponse p text = Val (VObject m) /\
              obj_get p m = Some pv /\
              obj_get points_key m = Some (VArray l)) as K.
  { intros p Np text. destruct (parseResponse_total p text) as [v E].
    destruct (parseResponse_cases p text v E) as [H|[H|[N1 N2]]].
    - apply direct_parse_inv in H as [_ (m & pv & l & -> & A & B)]. eauto 6.
    - apply direct_parse_inv in H as [_ (m & pv & l & -> & A & B)]. eauto 6.
    - pose proof (parseResponse_well_formed p Np text v N1 N2 E) as W.
      destruct v; try discriminate. simpl in W.
      destruct (obj_get p m) as [[]|] eqn:A; try discriminate.
      destruct (obj_get points_key m) as [[]|] eqn:B; try discriminate.
      eauto 6. }
  intros text. split; apply K; discriminate.
Qed.

(** X5.  A result of either normalizer is well-formed (a string primary
    field and only strings in [points]) unless it is the parsed JSON
    itself, of the raw text or of the fence-stripped text. *)
Theorem normalizer_well_formed_or_parsed : forall text v,
  (parseTranslationResponse text = Val v ->
   well_formed (lit "translation") v = true \/
   JSON_parse text = Val v \/ JSON_parse (clean text) = Val v) /\
  (parseExplanationResponse text = Val v ->
   well_formed (lit "summary") v = true \/
   JSON_parse text = Val v \/ JSON_parse (clean text) = Val v).
Proof.
  assert (forall p, p <> points_key -> forall text v,
            parseResponse p text = Val v ->
            well_formed p v = true \/
            JSON_parse text = Val v \/ JSON_parse (clean text) = Val v) as K.
  { intros p Np text v E.
    destruct (parseResponse_cases p text v E) as [H|[H|[N1 N2]]].
    - apply direct_parse_inv in H as [H _]. auto.
    - apply direct_parse_inv in H as [H _]. auto.
    - left. now apply parseResponse_well_formed with (text := text). }
  intros text v. split; apply K; discriminate.
Qed.

Lemma normalizer_well_formed_or_parsed_witness :
  well_formed (lit "summary")
    (VObject [(lit "summary", VString []);
              (lit "points", VArray [VString (js "a")])]) = true \/
  JSON_parse (js "{'points':['a',1]}")
    = Val (VObject [(lit "summary", VString []);
                    (lit "points", VArray [VString (js "a")])]) \/
  JSON_parse (clean (js "{'points':['a',1]}"))
    = Val (VObject [(lit "summary", VString []);
                    (lit "points", VArray [VString (js "a")])]).
Proof.
  apply (proj2 (normalizer_well_formed_or_parsed (js "{'points':['a',1]}")
                  (VObject [(lit "summary", VString []);
                            (lit "points", VArray [VString (js "a")])]))).
  vm_compute. reflexivity.
Defined.

(** X6.  A text that is a JSON object with the primary field present and
    an array under [points] comes back as parsed, with all its
    properties, from either normalizer. *)
Theorem shaped_object_is_returned_as_parsed : forall text m pv l,
  JSON_parse text = Val (VObject m) ->
  obj_get (lit "points") m = Some (VArray l) ->
  (obj_get (lit "translation") m = Some pv ->
   parseTranslationResponse text = Val (VObject m)) /\
  (obj_get (lit "summary") m = Some pv ->
   parseExplanationResponse text = Val (VObject m)).
Proof.
  intros text m pv l P B.
  split; intros A; unfold parseTranslationResponse, parseExplanationResponse,
    parseResponse;
    rewrite (direct_parse_accepts _ text m pv l P A B); reflexivity.
Qed.

Lemma shaped_object_is_returned_as_parsed_witness :
  parseTranslationResponse
    (js " {'translation':'neko','points':[],'lang':'ja'} ")
  = Val (VObject [(lit "translation", VString (js "neko"));
                  (lit "points", VArray []);
                  (lit "lang", VString (js "ja"))]).
Proof.
  apply (proj1 (shaped_object_is_returned_as_parsed
                  (js " {'translation':'neko','points':[],'lang':'ja'} ")
                  [(lit "translation", VString (js "neko"));
                   (lit "points", VArray []);
                   (lit "lang", VString (js "ja"))]
                  (VString (js "neko")) [] eq_refl eq_refl)).
  reflexivity.
Defined.

(** ** Fenced texts *)

Lemma skip_while_app p ws c r :
  forallb p ws = true -> p c = false ->
  skip_while p (ws ++ c :: r) = c :: r.
Proof.
  induction ws as [|a ws IH]; simpl; intros H C; [now rewrite C|].
  apply andb_prop in H as [A H]. rewrite A. auto.
Qed.

Lemma trimEnd_spaces ws : forallb is_js_space ws = true -> trimEnd ws = [].
Proof.
  induction ws as [|a ws IH]; simpl; [reflexivity|]. intros H.
  apply andb_prop in H as [A H]. rewrite (IH H), A. reflexivity.
Qed.

Lemma trimEnd_app s c ws :
  forallb is_js_space ws = true -> is_js_space c = false ->
  trimEnd (s ++ c :: ws) = s ++ [c].
Proof.
  intros W C. induction s as [|a s IH]; simpl.
  - rewrite (trimEnd_spaces _ W), C. reflexivity.
  - rewrite IH. destruct s; reflexivity.
Qed.

Lemma skip_while_keeps p s c r :
  p c = false ->
  (List.length (c :: r) <= List.length (skip_while p (s ++ c :: r)))%nat.
Proof.
  intros C. induction s as [|a s IH]; simpl.
  - rewrite C. simpl. lia.
  - destruct (p a); [exact IH|]. simpl. rewrite length_app. simpl. lia.
Qed.

(** The trailing-fence regex removes the last fence and the blanks before
    it, and nothing else. *)
Lemma replace_trailing_fence_app s c ws :
  forallb is_js_space ws = true -> is_js_space c = false ->
  replace_trailing_fence (s ++ c :: ws ++ backticks) = s ++ [c].
Proof.
  intros W C.
  assert (forall s', fence_to_end (s' ++ c :: ws ++ backticks) = false) as F.
  { intros s'. unfold fence_to_end.
    destruct (jsstring_eqb _ backticks) eqn:E; [|reflexivity].
    apply jsstring_eqb_eq in E.
    pose proof (skip_while_keeps is_js_space s' c (ws ++ backticks) C) as L.
    rewrite E in L. simpl in L. rewrite length_app in L. simpl in L. lia. }
  assert (replace_trailing_fence (ws ++ backticks) = []) as T.
  { rewrite replace_trailing_fence_eq. unfold fence_to_end.
    assert (skip_while is_js_space (ws ++ backticks) = backticks) as ->
        by (apply (skip_while_app is_js_space ws 96 [96; 96] W); reflexivity).
    reflexivity. }
  induction s as [|a s IH].
  - rewrite replace_trailing_fence_eq, (F []). simpl. now rewrite T.
  - rewrite replace_trailing_fence_eq, (F (a :: s)). simpl. now rewrite IH.
Qed.

Lemma replace_leading_json ws c r :
  forallb is_js_space ws = true -> is_js_space c = false ->
  replace_leading (lit "```json") (lit "```json" ++ ws ++ c :: r) = c :: r.
Proof.
  intros W C. unfold replace_leading.
  change (strip_prefix (lit "```json") (lit "```json" ++ ws ++ c :: r))
    with (Some (ws ++ c :: r)).
  now apply skip_while_app.
Qed.

Lemma replace_leading_backticks ws c r :
  forallb is_js_space ws = true -> is_js_space c = false ->
  replace_leading backticks (backticks ++ ws ++ c :: r) = c :: r.
Proof.
  intros W C. unfold replace_leading.
  change (strip_prefix backticks (backticks ++ ws ++ c :: r))
    with (Some (ws ++ c :: r)).
  now apply skip_while_app.
Qed.

Lemma replace_leading_json_untagged ws r :
  forallb is_js_space ws = true ->
  replace_leading (lit "```json") (backticks ++ ws ++ 123 :: r)
  = backticks ++ ws ++ 123 :: r.
Proof.
  intros W. unfold replace_leading.
  destruct ws as [|a ws]; [reflexivity|].
  simpl in W. apply andb_prop in W as [A _].
  assert (strip_prefix (lit "```json") (backticks ++ (a :: ws) ++ 123 :: r)
          = None) as ->; [|reflexivity].
  change (strip_prefix (lit "```json") (backticks ++ (a :: ws) ++ 123 :: r))
    with (if 106 =? a then strip_prefix (lit "son") (ws ++ 123 :: r)
          else None).
  destruct (N.eqb_spec 106 a) as [<-|]; [discriminate|reflexivity].
Qed.

Lemma replace_leading_brace fence r :
  replace_leading (96 :: fence) (123 :: r) = 123 :: r.
Proof. reflexivity. Qed.

Lemma clean_fenced ws0 opener ws1 body ws2 ws3 :
  forallb is_js_space ws0 = true -> forallb is_js_space ws1 = true ->
  forallb is_js_space ws2 = true -> forallb is_js_space ws3 = true ->
  opener = lit "```json" \/ opener = backticks ->
  clean (ws0 ++ opener ++ ws1 ++ (123 :: body ++ [125]) ++ ws2
           ++ backticks ++ ws3)
  = 123 :: body ++ [125].
Proof.
  intros W0 W1 W2 W3 O. unfold clean, trim.
  remember (body ++ [125] ++ ws2 ++ backticks) as u eqn:U.
  assert ((123 :: body ++ [125]) ++ ws2 ++ backticks = 123 :: u) as E
      by (subst u; simpl; rewrite <- app_assoc; reflexivity).
  assert (trimStart (ws0 ++ opener ++ ws1 ++ (123 :: body ++ [125]) ++ ws2
                       ++ backticks ++ ws3)
          = opener ++ ws1 ++ (123 :: body ++ [125]) ++ ws2 ++ backticks ++ ws3)
    as ->.
  { destruct O as [-> | ->];
      apply (skip_while_app is_js_space ws0 96); auto. }
  assert (trimEnd (opener ++ ws1 ++ (123 :: body ++ [125]) ++ ws2
                     ++ backticks ++ ws3)
          = opener ++ ws1 ++ 123 :: u) as ->.
  { rewrite <- E.
    change backticks with ([96; 96] ++ [96]).
    rewrite <- (app_assoc [96; 96] [96] ws3).
    rewrite !app_assoc. rewrite <- (app_assoc _ [96] ws3).
    apply (trimEnd_app _ 96 ws3 W3). reflexivity. }
  assert (replace_leading backticks
            (replace_leading (lit "```json") (opener ++ ws1 ++ 123 :: u))
          = 123 :: u) as ->.
  { destruct O as [-> | ->].
    - rewrite replace_leading_json by auto. apply replace_leading_brace.
    - rewrite replace_leading_json_untagged by auto.
      now apply replace_leading_backticks. }
  assert (replace_trailing_fence (123 :: u) = 123 :: body ++ [125]) as ->.
  { subst u. rewrite app_comm_cons.
    change (body ++ [125] ++ ws2 ++ backticks)
      with (body ++ 125 :: ws2 ++ backticks).
    rewrite app_comm_cons.
    apply (replace_trailing_fence_app (123 :: body) 125 ws2 W2). reflexivity. }
  change (trimStart (123 :: body ++ [125])) with (123 :: body ++ [125]).
  rewrite app_comm_cons.
  apply (trimEnd_app (123 :: body) 125 [] eq_refl eq_refl).
Qed.

Lemma skip_ws_head_fence ws0 r :
  forallb is_js_space ws0 = true ->
  exists c r', skip_ws (ws0 ++ 96 :: r) = c :: r' /\ c <> 123.
Proof.
  intros W. unfold skip_ws.
  induction ws0 as [|a ws0 IH]; simpl.
  - eexists _, _. split; [reflexivity|discriminate].
  - apply andb_prop in W as [A W]. destruct (is_json_ws a); [auto|].
    eexists _, _. split; [reflexivity|]. intros ->. discriminate.
Qed.

(** X7.  A JSON object text written between braces and wrapped in a
    Markdown fence (opened by three backticks, with or without the tag
    json, closed by three backticks, with any blanks around the fence
    marks) is normalized as the object itself, when the object has the
    primary field and an array under [points]. *)
Theorem fenced_object_is_unwrapped :
  forall ws0 opener ws1 body ws2 ws3 m pv l,
    forallb is_js_space ws0 = true -> forallb is_js_space ws1 = true ->
    forallb is_js_space ws2 = true -> forallb is_js_space ws3 = true ->
    opener = lit "```json" \/ opener = lit "```" ->
    JSON_parse (123 :: body ++ [125]) = Val (VObject m) ->
    obj_get (lit "points") m = Some (VArray l) ->
    (obj_get (lit "translation") m = Some pv ->
     parseTranslationResponse
       (ws0 ++ opener ++ ws1 ++ (123 :: body ++ [125]) ++ ws2
          ++ lit "```" ++ ws3)
     = Val (VObject m)) /\
    (obj_get (lit "summary") m = Some pv ->
     parseExplanationResponse
       (ws0 ++ opener ++ ws1 ++ (123 :: body ++ [125]) ++ ws2
          ++ lit "```" ++ ws3)
     = Val (VObject m)).
Proof.
  intros ws0 opener ws1 body ws2 ws3 m pv l W0 W1 W2 W3 O P B.
  set (text := ws0 ++ opener ++ ws1 ++ (123 :: body ++ [125]) ++ ws2
                   ++ lit "```" ++ ws3).
  assert (clean text = 123 :: body ++ [125]) as C
      by (apply clean_fenced; assumption).
  assert (forall p, ~ returns (direct_parse p text)) as N.
  { intros p [w H]. apply direct_parse_inv in H as [H (m' & _ & _ & -> & _)].
    apply JSON_parse_object_brace in H as [r H].
    assert (exists r0, text = ws0 ++ 96 :: r0) as [r0 E]
        by (destruct O as [-> | ->]; eexists; reflexivity).
    rewrite E in H.
    destruct (skip_ws_head_fence ws0 r0 W0) as (c & r' & S & Nc).
    rewrite S in H. congruence. }
  assert (forall p, obj_get p m = Some pv ->
            parseResponse p text = Val (VObject m)) as K.
  { intros p A. unfold parseResponse. rewrite C.
    rewrite (direct_parse_accepts p _ m pv l P A B).
    pose proof (direct_parse_completes p text) as T. specialize (N p).
    destruct (direct_parse p text) as [[w|]| |]; try reflexivity; try easy.
    exfalso. apply N. red. eauto. }
  split; apply K.
Qed.

Lemma fenced_object_is_unwrapped_witness :
  parseExplanationResponse
    (js "  ```json" ++ [10] ++ js "{'summary':'s','points':['p']}"
       ++ [13; 10] ++ js "```" ++ [10])
  = Val (VObject [(lit "summary", VString (js "s"));
                  (lit "points", VArray [VString (js "p")])]).
Proof.
  apply (proj2 (fenced_object_is_unwrapped
                  (js "  ") (lit "```json") [10]
                  (js "'summary':'s','points':['p']") [13; 10] [10]
                  [(lit "summary", VString (js "s"));
                   (lit "points", VArray [VString (js "p")])]
                  (VString (js "s")) [VString (js "p")]
                  eq_refl eq_refl eq_refl eq_refl (or_introl eq_refl)
                  eq_refl eq_refl)).
  reflexivity.
Defined.

(** X8.  When the fence-stripped text is a JSON array whose first element
    is an object, the result is built from that object alone: its primary
    field if that is a string (else the empty string) and the strings
    among its points (none if [points] is not an array); the other
    elements of the array are ignored. *)
Theorem lenient_parse_uses_first_element : forall text m others,
  JSON_parse (clean text) = Val (VArray (VObject m :: others)) ->
  parseTranslationResponse text =
    Val (VObject
           [(lit "translation",
             VString match obj_get (lit "translation") m with
                     | Some (VString str) => str
                     | _ => []
                     end);
            (lit "points",
             VArray match obj_get (lit "points") m with
                    | Some (VArray l) => filter is_string l
                    | _ => []
                    end)]) /\
  parseExplanationResponse text =
    Val (VObject
           [(lit "summary",
             VString match obj_get (lit "summary") m with
                     | Some (VString str) => str
                     | _ => []
                     end);
            (lit "points",
             VArray match obj_get (lit "points") m with
                    | Some (VArray l) => filter is_string l
                    | _ => []
                    end)]).
Proof.
  intros text m others P.
  assert (forall p,
            parseResponse p text =
            Val (response p
                   match obj_get p m with
                   | Some (VString str) => str
                   | _ => []
                   end
                   match obj_get points_key m with
                   | Some (VArray l) => filter is_string l
                   | _ => []
                   end)) as K.
  { intros p. unfold parseResponse.
    assert (~ returns (direct_parse p text)) as N1.
    { intros [w H]. apply direct_parse_inv in H as [H (m' & _ & _ & -> & _)].
      destruct (clean_of_object _ _ _ H P) as [m'' E]. discriminate. }
    assert (direct_parse p (clean text) = Val None) as ->
        by (unfold direct_parse; rewrite P; reflexivity).
    assert (lenient_parse p (clean text) = Val (Some (response p
                   match obj_get p m with
                   | Some (VString str) => str
                   | _ => []
                   end
                   match obj_get points_key m with
                   | Some (VArray l) => filter is_string l
                   | _ => []
                   end))) as ->
        by (unfold lenient_parse; rewrite P; reflexivity).
    pose proof (direct_parse_completes p text) as T.
    destruct (direct_parse p text) as [[w|]| |]; try reflexivity; try easy.
    exfalso. apply N1. red. eauto. }
  split; apply K.
Qed.

Lemma lenient_parse_uses_first_element_witness :
  parseTranslationResponse
    (js "```[{'translation':'a','points':'none'},{'translation':'b'}]```")
  = Val (VObject [(lit "translation", VString (js "a"));
                  (lit "points", VArray [])]).
Proof.
  apply (proj1 (lenient_parse_uses_first_element
    (js "```[{'translation':'a','points':'none'},{'translation':'b'}]```")
    [(lit "translation", VString (js "a"));
     (lit "points", VString (js "none"))]
    [VObject [(lit "translation", VString (js "b"))]] eq_refl)).
Defined.

(** ** Cleaning *)

Lemma skip_while_suffix p s : exists pre, s = pre ++ skip_while p s.
Proof.
  induction s as [|a s [pre IH]]; simpl; [exists []; reflexivity|].
  destruct (p a); [|exists []; reflexivity].
  exists (a :: pre). simpl. now rewrite <- IH.
Qed.

Lemma trimEnd_prefix s : exists post, s = trimEnd s ++ post.
Proof.
  induction s as [|a s [post IH]]; simpl; [exists []; reflexivity|].
  destruct (trimEnd s) as [|b r].
  - destruct (is_js_space a); [exists (a :: s)|exists s]; reflexivity.
  - exists post. simpl in *. f_equal. exact IH.
Qed.

Lemma replace_leading_suffix fence s :
  exists pre, s = pre ++ replace_leading fence s.
Proof.
  unfold replace_leading. destruct (strip_prefix fence s) as [r|] eqn:E;
    [|exists []; reflexivity].
  assert (exists pre0, s = pre0 ++ r) as [pre0 ->].
  { revert s E. induction fence as [|a f IH]; intros s E; simpl in E.
    - inv E. exists []. reflexivity.
    - destruct s as [|b s]; [discriminate|].
      destruct (a =? b); [|discriminate].
      destruct (IH _ E) as [pre0 ->]. exists (b :: pre0). reflexivity. }
  destruct (skip_while_suffix is_js_space r) as [pre1 E1].
  exists (pre0 ++ pre1). rewrite <- app_assoc. now rewrite <- E1.
Qed.

Lemma replace_trailing_fence_prefix s :
  exists post, s = replace_trailing_fence s ++ post.
Proof.
  induction s as [|a s [post IH]]; rewrite replace_trailing_fence_eq.
  - destruct (fence_to_end []); exists []; reflexivity.
  - destruct (fence_to_end (a :: s)); [exists (a :: s); reflexivity|].
    exists post. simpl. now rewrite <- IH.
Qed.

Lemma trimEnd_idempotent s : trimEnd (trimEnd s) = trimEnd s.
Proof.
  induction s as [|a s IH]; simpl; [reflexivity|].
  destruct (trimEnd s) as [|b r] eqn:E.
  - destruct (is_js_space a) eqn:A; simpl; [reflexivity|]. now rewrite A.
  - simpl in *. rewrite IH. reflexivity.
Qed.

Lemma trimStart_of_trimEnd s :
  trimStart s = s -> trimStart (trimEnd s) = trimEnd s.
Proof.
  destruct s as [|a s]; [reflexivity|]. unfold trimStart. simpl.
  destruct (is_js_space a) eqn:A.
  - intros H. exfalso.
    pose proof (skip_while_length is_js_space s) as L.
    rewrite H in L. simpl in L. lia.
  - intros _. destruct (trimEnd s); simpl; now rewrite A.
Qed.

Lemma trimStart_idempotent s : trimStart (trimStart s) = trimStart s.
Proof.
  unfold trimStart. induction s as [|a s IH]; simpl; [reflexivity|].
  destruct (is_js_space a) eqn:A; [exact IH|]. simpl. now rewrite A.
Qed.

(** X9.  The cleaning step only cuts at the two ends: the cleaned text is
    a contiguous part of the raw text, and it neither starts nor ends
    with a blank (trimming it again changes nothing). *)
Theorem clean_keeps_a_part_of_the_text : forall text,
  (exists before after, text = before ++ clean text ++ after) /\
  trim (clean text) = clean text.
Proof.
  intros text. split.
  - unfold clean, trim.
    destruct (skip_while_suffix is_js_space text) as [p1 E1].
    fold (trimStart text) in E1.
    destruct (trimEnd_prefix (trimStart text)) as [q1 E2].
    set (a := trimEnd (trimStart text)) in *.
    destruct (replace_leading_suffix (lit "```json") a) as [p2 E3].
    set (b := replace_leading (lit "```json") a) in *.
    destruct (replace_leading_suffix backticks b) as [p3 E4].
    set (c := replace_leading backticks b) in *.
    destruct (replace_trailing_fence_prefix c) as [q2 E5].
    set (d := replace_trailing_fence c) in *.
    destruct (skip_while_suffix is_js_space d) as [p4 E6].
    fold (trimStart d) in E6.
    destruct (trimEnd_prefix (trimStart d)) as [q3 E7].
    exists (p1 ++ p2 ++ p3 ++ p4), (q3 ++ q2 ++ q1).
    rewrite E1 at 1. rewrite E2 at 1. rewrite E3 at 1. rewrite E4 at 1.
    rewrite E5 at 1. rewrite E6 at 1. rewrite E7 at 1.
    rewrite <- !app_assoc. reflexivity.
  - unfold clean. set (d := replace_trailing_fence _). unfold trim.
    rewrite trimStart_of_trimEnd by apply trimStart_idempotent.
    apply trimEnd_idempotent.
Qed.

(** ** The route handlers, beyond the error classification *)

Local Ltac net_simpl :=
  cbn -[truthy or_default stringifies forallb ok errorMessage parseResponse
        JSON_parse nonempty get_prop getGeminiSettings].

Local Ltac net_cases :=
  run_net; unfold stringify_all; net_simpl;
  repeat (first
            [ match goal with
              | |- context [of_sum (?f ?q)] => destruct (f q) eqn:?; net_simpl
              end
            | inner_destruct; net_simpl ]).

Local Ltac built :=
  repeat match goal with
    | H : NextResponse_json _ _ = Val _ |- _ =>
        apply NextResponse_json_val in H; subst
    end.

Local Ltac no_fuel :=
  match goal with
  | H : JSON_parse ?s = NoFuel |- _ => destruct (JSON_parse_total s H)
  | H : get_prop ?v ?k = NoFuel |- _ => destruct (get_prop_completes v k H)
  | H : NextResponse_json ?b ?s = NoFuel |- _ =>
      destruct (NextResponse_json_completes b s H)
  | H : parseResponse ?p ?t = NoFuel |- _ =>
      destruct (parseResponse_total p t) as [? ?]; congruence
  end.

(** X10.  A handler (translate or explain) always answers: it never
    throws, it sends at most one request upstream, and the status of its
    response is 200, 400, 500 or the status of an upstream response that
    was not [ok]. *)
Theorem handler_always_answers : forall op key upstream request_body,
  exists resp log,
    run (POST op key upstream request_body) = (Val resp, log) /\
    (log = [] \/ exists q, log = [q]) /\
    (resp_status resp = 200%Z \/ resp_status resp = 400%Z \/
     resp_status resp = 500%Z \/
     exists q r, log = [q] /\ upstream q = inr r /\
                 ok (up_status r) = false /\
                 resp_status resp = up_status r).
Proof.
  intros. net_cases; try no_fuel; built;
    (eexists; eexists; split; [reflexivity|]; split; [eauto|]); simpl; auto.
  all: do 3 right; eexists; eexists; (split; [reflexivity|]);
    match goal with H : negb (ok _) = true |- _ =>
      apply negb_true_iff in H end;
    eauto.
Qed.

(** X11.  With the key set, a request whose JSON body has no [text], or a
    falsy one (empty string, null, false, zero), is answered with status
    400 and the message "Text required", and nothing is sent upstream. *)
Theorem missing_text_is_refused :
  forall op key k upstream request_body request,
    nonempty key = Some k ->
    JSON_parse request_body = Val request ->
    request <> VNull ->
    (forall t, get_prop request (lit "text") = Val t -> truthy t = false) ->
    run (POST op key upstream request_body)
    = (Val {| resp_body := ErrorBody (Literal (lit "Text required"));
              resp_status := 400 |}, []).
Proof.
  intros. eapply POST_text_required; eassumption.
Qed.

Lemma missing_text_is_refused_witness :
  run (POST Translate (Some (lit "secret")) (fun _ => inl TypeError)
         (js "{'text':'','contextBefore':'x'}"))
  = (Val {| resp_body := ErrorBody (Literal (lit "Text required"));
            resp_status := 400 |}, []).
Proof.
  apply (missing_text_is_refused Translate (Some (lit "secret")) (lit "secret")
           (fun _ => inl TypeError) (js "{'text':'','contextBefore':'x'}")
           (VObject [(lit "text", VString []);
                     (lit "contextBefore", VString (js "x"))])).
  - reflexivity.
  - reflexivity.
  - discriminate.
  - intros t E. injection E as <-. reflexivity.
Defined.

(** *** The prompt *)

Lemma strip_prefix_app p : forall r, strip_prefix p (p ++ r) = Some r.
Proof.
  induction p as [|a p IH]; intros r; [reflexivity|].
  cbn [strip_prefix app]. rewrite N.eqb_refl. apply IH.
Qed.

Lemma no_unit_app c a b : no_unit c (a ++ b) = no_unit c a && no_unit c b.
Proof. apply forallb_app. Qed.

Lemma GetSubstitution_no_dollar matched before after : forall t,
  no_unit 36 t = true -> GetSubstitution matched before after t = t.
Proof.
  induction t as [|c t IH]; [reflexivity|].
  cbn [no_unit forallb]. intros H.
  apply andb_true_iff in H as [H1 H2].
  cbn [GetSubstitution].
  destruct (c =? 36); [discriminate|]. now rewrite IH.
Qed.

Lemma prepend_nil found : prepend [] found = found.
Proof. destruct found as [[? ?]|]; reflexivity. Qed.

Lemma prepend_cons c t found :
  prepend (c :: t) found = prepend [c] (prepend t found).
Proof. destruct found as [[? ?]|]; reflexivity. Qed.

Lemma split_at_first_cons pattern c r :
  strip_prefix pattern (c :: r) = None ->
  split_at_first pattern (c :: r) = prepend [c] (split_at_first pattern r).
Proof.
  intros E. cbn [split_at_first]. rewrite E.
  destruct (split_at_first pattern r) as [[? ?]|]; reflexivity.
Qed.

(** A pattern is found where it stands. *)
Lemma split_at_first_here c p r :
  split_at_first (c :: p) ((c :: p) ++ r) = Some ([], r).
Proof.
  pose proof (strip_prefix_app (c :: p) r) as E.
  cbn [app] in *. cbn [split_at_first]. now rewrite E.
Qed.

(** No placeholder begins in a text without an opening brace. *)
Lemma split_at_first_skip p r : forall t,
  no_unit 123 t = true ->
  split_at_first (123 :: p) (t ++ r)
  = prepend t (split_at_first (123 :: p) r).
Proof.
  induction t as [|a t IH]; intros H.
  - cbn [app]. now rewrite prepend_nil.
  - cbn [no_unit forallb] in H. apply andb_true_iff in H as [H1 H2].
    cbn [app]. rewrite split_at_first_cons, (IH H2), <- prepend_cons;
      [reflexivity|].
    cbn [strip_prefix].
    destruct (N.eqb_spec 123 a) as [<-|_]; [discriminate|reflexivity].
Qed.

(** A pattern without a line feed that does not begin a text does not
    begin that text followed by a line feed either. *)
Lemma strip_prefix_app_none : forall pattern u r,
  strip_prefix pattern u = None ->
  no_unit 10 pattern = true ->
  strip_prefix pattern (u ++ 10 :: r) = None.
Proof.
  induction pattern as [|a p IH]; intros u r E N; [discriminate|].
  cbn [no_unit forallb] in N. apply andb_true_iff in N as [N1 N2].
  destruct u as [|b u]; cbn [app strip_prefix] in *.
  - destruct (N.eqb_spec a 10) as [->|_]; [discriminate|reflexivity].
  - destruct (a =? b); [|reflexivity]. now apply IH.
Qed.

Lemma occurs_cons pattern c r :
  occurs pattern (c :: r) = false ->
  strip_prefix pattern (c :: r) = None /\ occurs pattern r = false.
Proof.
  unfold occurs. cbn [split_at_first].
  destruct (strip_prefix pattern (c :: r)); [discriminate|].
  destruct (split_at_first pattern r) as [[? ?]|]; [discriminate|].
  intros _. split; reflexivity.
Qed.

(** A pattern without a line feed that does not occur in a text is first
    found after it, when a line feed follows the text. *)
Lemma split_at_first_pass pattern t r : forall u,
  occurs pattern u = false ->
  no_unit 10 pattern = true ->
  hd_error t = Some 10 ->
  split_at_first pattern (u ++ t ++ r)
  = prepend u (split_at_first pattern (t ++ r)).
Proof.
  intros u O N T. destruct t as [|d t]; [discriminate|].
  injection T as ->. revert O.
  induction u as [|b u IH]; intros O.
  - cbn [app]. now rewrite prepend_nil.
  - apply occurs_cons in O as [S O].
    change ((b :: u) ++ (10 :: t) ++ r) with (b :: (u ++ (10 :: t) ++ r)).
    rewrite split_at_first_cons, (IH O), <- prepend_cons; [reflexivity|].
    change (b :: u ++ (10 :: t) ++ r) with ((b :: u) ++ 10 :: (t ++ r)).
    now apply strip_prefix_app_none.
Qed.

Lemma String_replace_found pattern A B replacement s :
  split_at_first pattern s = Some (A, B) ->
  no_unit 36 replacement = true ->
  String_replace pattern replacement s = A ++ replacement ++ B.
Proof.
  intros F P. unfold String_replace. rewrite F.
  now rewrite GetSubstitution_no_dollar.
Qed.

(** The prompt built from texts without a dollar sign in which no
    placeholder of a later replacement occurs: the template with each
    placeholder replaced by its text. *)
Lemma build_prompt_verbatim op text before after :
  no_unit 36 text = true -> no_unit 36 before = true ->
  no_unit 36 after = true ->
  occurs (lit "{context_before}") text = false ->
  occurs (lit "{context_after}") text = false ->
  occurs (lit "{context_after}") before = false ->
  build_prompt op text before after =
    match op with
    | Translate =>
        lit "SELECTED TEXT (translate this):
" ++ text ++ lit "

Context before:
" ++ before ++ lit "

Context after:
" ++ after
    | Explain =>
        js "Explain the following text.

The user has selected text from a PDF document. The context shows the surrounding text:
- 'Context before' = text that appears BEFORE the selected text in the document
- 'Text to explain' = the actual text the user selected
- 'Context after' = text that appears AFTER the selected text in the document

## Context before (for understanding only):
" ++ before ++ lit "

## Text to explain:
" ++ text ++ lit "

## Context after (for understanding only):
" ++ after ++ lit "

Use the context to understand the meaning, but explain only the selected text."
    end.
Proof.
  intros T B A TB TA BA. unfold build_prompt. destruct op.
  - set (t0 := lit "SELECTED TEXT (translate this):
").
    set (t1 := lit "

Context before:
").
    set (t2 := lit "

Context after:
").
    change (prompt_template Translate)
      with (t0 ++ (123 :: lit "text}")
               ++ t1 ++ (123 :: lit "context_before}")
               ++ t2 ++ (123 :: lit "context_after}") ++ []).
    change (lit "{text}") with (123 :: lit "text}").
    rewrite (String_replace_found (123 :: lit "text}") t0
               (t1 ++ (123 :: lit "context_before}")
                   ++ t2 ++ (123 :: lit "context_after}") ++ []) text)
      by (assumption
          || (rewrite split_at_first_skip, split_at_first_here
                by reflexivity;
              cbn [prepend]; now rewrite app_nil_r)).
    rewrite (String_replace_found (lit "{context_before}") (t0 ++ text ++ t1)
               (t2 ++ (123 :: lit "context_after}") ++ []) before)
      by (assumption
          || (change (lit "{context_before}")
                with (123 :: lit "context_before}");
              rewrite split_at_first_skip by reflexivity;
              rewrite split_at_first_pass by (assumption || reflexivity);
              rewrite split_at_first_skip, split_at_first_here
                by reflexivity;
              cbn [prepend]; now rewrite app_nil_r)).
    rewrite (String_replace_found (lit "{context_after}")
               ((t0 ++ text ++ t1) ++ before ++ t2) [] after)
      by (assumption
          || (change (lit "{context_after}")
                with (123 :: lit "context_after}");
              rewrite <- ?app_assoc;
              rewrite split_at_first_skip by reflexivity;
              rewrite split_at_first_pass by (assumption || reflexivity);
              rewrite split_at_first_skip by reflexivity;
              rewrite split_at_first_pass by (assumption || reflexivity);
              rewrite split_at_first_skip, split_at_first_here
                by reflexivity;
              cbn [prepend]; now rewrite app_nil_r)).
    rewrite app_nil_r, <- !app_assoc. reflexivity.
  - set (t0 := js "Explain the following text.

The user has selected text from a PDF document. The context shows the surrounding text:
- 'Context before' = text that appears BEFORE the selected text in the document
- 'Text to explain' = the actual text the user selected
- 'Context after' = text that appears AFTER the selected text in the document

## Context before (for understanding only):
").
    set (t1 := lit "

## Text to explain:
").
    set (t2 := lit "

## Context after (for understanding only):
").
    set (t3 := lit "

Use the context to understand the meaning, but explain only the selected text.").
    rewrite (String_replace_found (lit "{text}")
               (t0 ++ (123 :: lit "context_before}") ++ t1)
               (t2 ++ (123 :: lit "context_after}") ++ t3) text)
      by (assumption || (vm_compute; reflexivity)).
    rewrite (String_replace_found (lit "{context_before}") t0
               (t1 ++ text ++ t2 ++ (123 :: lit "context_after}") ++ t3)
               before)
      by (assumption
          || (change (lit "{context_before}")
                with (123 :: lit "context_before}");
              rewrite <- ?app_assoc;
              rewrite split_at_first_skip, split_at_first_here
                by reflexivity;
              cbn [prepend]; now rewrite app_nil_r)).
    rewrite (String_replace_found (lit "{context_after}")
               (t0 ++ before ++ t1 ++ text ++ t2) t3 after)
      by (assumption
          || (change (lit "{context_after}")
                with (123 :: lit "context_after}");
              rewrite <- ?app_assoc;
              rewrite split_at_first_skip by reflexivity;
              rewrite split_at_first_pass by (assumption || reflexivity);
              rewrite split_at_first_skip by reflexivity;
              rewrite split_at_first_pass by (assumption || reflexivity);
              rewrite split_at_first_skip, split_at_first_here
                by reflexivity;
              cbn [prepend]; now rewrite app_nil_r)).
    rewrite <- !app_assoc. reflexivity.
Qed.

(** In the replacement text a dollar sign followed by an ampersand stands
    for the placeholder itself, and two dollar signs for one. *)
Example prompt_expands_dollar_patterns :
  build_prompt Translate (lit "a$&b$$") (lit "c") (lit "d") =
  lit "SELECTED TEXT (translate this):
a{text}b$

Context before:
c

Context after:
d".
Proof. vm_compute. reflexivity. Qed.

(** A placeholder inside the text is the first one that the next
    replacement finds. *)
Example prompt_placeholder_in_text :
  build_prompt Translate (lit "a{context_before}b") (lit "c") (lit "d") =
  lit "SELECTED TEXT (translate this):
acb

Context before:
{context_before}

Context after:
d".
Proof. vm_compute. reflexivity. Qed.

(** The values from which a handler builds its request. *)
Lemma POST_request op key upstream request_body resp log q :
  run (POST op key upstream request_body) = (resp, log) ->
  In q log ->
  exists request,
    JSON_parse request_body = Val request /\
    gr_operation q = op /\
    nonempty key = Some (gr_key q) /\
    get_prop request (lit "text") = Val (Some (gr_text q)) /\
    truthy (Some (gr_text q)) = true /\
    (exists model,
        get_prop request (lit "model") = Val model /\
        gr_model q = or_default model (VString (lit "gemini-2.0-flash"))) /\
    (exists before,
        get_prop request (lit "contextBefore") = Val before /\
        gr_context_before q = or_default before (VString [])) /\
    (exists after,
        get_prop request (lit "contextAfter") = Val after /\
        gr_context_after q = or_default after (VString [])).
Proof.
  net_cases; intros H I; inv H; simpl in I;
    try contradiction; destruct I as [<-|[]];
    (eexists; split; [reflexivity|]); simpl;
    repeat split; eauto.
Qed.

(** X12.  What a handler sends upstream, in terms of the request it
    received.  The key is configured.  When the model of the incoming
    request or, that one being absent or falsy, "gemini-2.0-flash" is a
    string, the URL is the API base, "/models/", that model,
    ":generateContent?key=" and the key.  When the incoming text is a
    string, and so are the incoming contexts or, for one that is absent
    or falsy, the empty string, none of the three contains a dollar
    sign, neither context placeholder occurs in the text and the
    placeholder of the context after does not occur in the context
    before, then the prompt is the operation's template with the three
    placeholders replaced by them. *)
Theorem upstream_request_contents :
  forall op key upstream request_body resp log q,
    run (POST op key upstream request_body) = (resp, log) ->
    In q log ->
    exists request apiKey,
      JSON_parse request_body = Val request /\
      nonempty key = Some apiKey /\
      (forall incoming model,
          get_prop request (lit "model") = Val incoming ->
          or_default incoming (VString (lit "gemini-2.0-flash"))
            = VString model ->
          gr_url q =
            Some (lit "https://generativelanguage.googleapis.com/v1beta/models/"
                    ++ model ++ lit ":generateContent?key=" ++ apiKey)) /\
      (forall text contextBefore contextAfter before after,
          get_prop request (lit "text") = Val (Some (VString text)) ->
          get_prop request (lit "contextBefore") = Val contextBefore ->
          get_prop request (lit "contextAfter") = Val contextAfter ->
          or_default contextBefore (VString []) = VString before ->
          or_default contextAfter (VString []) = VString after ->
          no_unit 36 text = true -> no_unit 36 before = true ->
          no_unit 36 after = true ->
          occurs (lit "{context_before}") text = false ->
          occurs (lit "{context_after}") text = false ->
          occurs (lit "{context_after}") before = false ->
          gr_prompt q =
            Some match op with
                 | Translate =>
                     lit "SELECTED TEXT (translate this):
" ++ text ++ lit "

Context before:
" ++ before ++ lit "

Context after:
" ++ after
                 | Explain =>
                     js "Explain the following text.

The user has selected text from a PDF document. The context shows the surrounding text:
- 'Context before' = text that appears BEFORE the selected text in the document
- 'Text to explain' = the actual text the user selected
- 'Context after' = text that appears AFTER the selected text in the document

## Context before (for understanding only):
" ++ before ++ lit "

## Text to explain:
" ++ text ++ lit "

## Context after (for understanding only):
" ++ after ++ lit "

Use the context to understand the meaning, but explain only the selected text."
                 end).
Proof.
  intros until q. intros H I.
  destruct (POST_request _ _ _ _ _ _ _ H I)
    as (request & P & O & K & T & _ & (m' & M1 & M2) & (b' & B1 & B2)
        & (a' & A1 & A2)).
  exists request, (gr_key q).
  split; [exact P|]. split; [exact K|]. split.
  - intros incoming model E D. unfold gr_url.
    rewrite M1 in E. inv E. rewrite M2, D. reflexivity.
  - intros text contextBefore contextAfter before after
           E1 E2 E3 D2 D3 P1 P2 P3 O1 O2 O3.
    rewrite T in E1. inv E1. rewrite B1 in E2. inv E2.
    rewrite A1 in E3. inv E3.
    unfold gr_prompt.
    match goal with E : gr_text q = VString _ |- _ => rewrite E end.
    rewrite B2, D2, A2, D3. f_equal.
    now apply build_prompt_verbatim.
Qed.

Lemma upstream_request_contents_witness :
  let upstream := fun _ : generate_request =>
    (inr {| up_status := 503; up_text := []; up_json := inl SyntaxError |}
     : exn + upstream_response) in
  let q := {| gr_operation := Translate;
              gr_model := VString (lit "gemini-2.0-flash");
              gr_key := lit "secret";
              gr_text := VString (js "hello");
              gr_context_before := VString (js "a");
              gr_context_after := VString [] |} in
  snd (run (POST Translate (Some (lit "secret")) upstream
              (js "{'text':'hello','contextBefore':'a','model':''}"))) = [q] /\
  gr_url q =
    Some (lit "https://generativelanguage.googleapis.com/v1beta/models/gemini-2.0-flash:generateContent?key=secret") /\
  gr_prompt q =
    Some (lit "SELECTED TEXT (translate this):
hello

Context before:
a

Context after:
").
Proof.
  intros upstream q.
  split; [vm_compute; reflexivity|].
  destruct (upstream_request_contents Translate (Some (lit "secret")) upstream
              (js "{'text':'hello','contextBefore':'a','model':''}")
              (fst (run (POST Translate (Some (lit "secret")) upstream
                           (js "{'text':'hello','contextBefore':'a','model':''}"))))
              (snd (run (POST Translate (Some (lit "secret")) upstream
                           (js "{'text':'hello','contextBefore':'a','model':''}"))))
              q)
    as (request & apiKey & R & K & U & P).
  - apply surjective_pairing.
  - vm_compute. left. reflexivity.
  - vm_compute in R. inv R. vm_compute in K. inv K. split.
    + rewrite (U (Some (VString [])) (lit "gemini-2.0-flash")
                 eq_refl eq_refl).
      reflexivity.
    + rewrite (P (js "hello") (Some (VString (js "a"))) None (js "a") []
                 eq_refl eq_refl eq_refl eq_refl eq_refl
                 eq_refl eq_refl eq_refl eq_refl eq_refl eq_refl).
      reflexivity.
Defined.

Local Ltac same_exchange H I U :=
  inv H; simpl in I; try contradiction; destruct I as [<-|[]];
  match type of U with
  | ?f _ = _ =>
      match goal with
      | E : f _ = _ |- _ =>
          tryif constr_eq E U then fail else (rewrite U in E; inv E)
      end
  end.

(** X13.  When the upstream response is [ok], carries no error, and the
    first part of its first candidate has a non-empty text, the handler
    answers with status 200 and, as body, the result of its normalizer on
    that text (the translation normalizer for translate, the explanation
    normalizer for explain). *)
Theorem upstream_success_is_normalized :
  forall op key upstream request_body resp log q r c text parts others,
    run (POST op key upstream request_body) = (resp, log) ->
    In q log ->
    upstream q = inr r ->
    ok (up_status r) = true ->
    up_json r =
      inr {| candidates :=
               Some ({| content_parts := {| part_text := c :: text |} :: parts |}
                       :: others);
             error_message := None |} ->
    exists v,
      match op with
      | Translate => parseTranslationResponse (c :: text)
      | Explain => parseExplanationResponse (c :: text)
      end = Val v /\
      resp = Val {| resp_body := JsonBody v; resp_status := 200 |}.
Proof.
  intros until others.
  net_cases; intros H I U O J; same_exchange H I U;
    try (rewrite O in *; discriminate);
    match goal with
    | E : up_json _ = _ |- _ =>
        tryif constr_eq E J then fail else (rewrite J in E; inv E)
    end;
    repeat match goal with
      | E : error_message _ = _ |- _ => cbn in E
      | E : nonempty (resultText _) = _ |- _ => cbn in E
      end; try discriminate;
    try match goal with
      | E : Some _ = Some _ |- _ => inv E
      end; try no_fuel.
  all: try (eexists; split; [eassumption|reflexivity]).
  all: exfalso;
    match goal with
    | E : parseResponse ?p ?t = Throw _ |- _ =>
        destruct (parseResponse_total p t) as [? ?]; congruence
    end.
Qed.

Lemma upstream_success_is_normalized_witness :
  let data := {| candidates :=
                   Some [{| content_parts :=
                              [{| part_text := js "{'summary':'s','points':[]}" |}] |}];
                 error_message := None |} in
  let upstream := fun _ : generate_request =>
    (inr {| up_status := 200; up_text := []; up_json := inr data |}
     : exn + upstream_response) in
  exists v,
    parseExplanationResponse (js "{'summary':'s','points':[]}") = Val v /\
    fst (run (POST Explain (Some (lit "secret")) upstream (js "{'text':'hi'}")))
    = Val {| resp_body := JsonBody v; resp_status := 200 |}.
Proof.
  intros data upstream.
  apply (upstream_success_is_normalized Explain (Some (lit "secret")) upstream
           (js "{'text':'hi'}")
           (fst (run (POST Explain (Some (lit "secret")) upstream
                        (js "{'text':'hi'}"))))
           (snd (run (POST Explain (Some (lit "secret")) upstream
                        (js "{'text':'hi'}"))))
           {| gr_operation := Explain;
              gr_model := VString default_model;
              gr_key := lit "secret";
              gr_text := VString (js "hi");
              gr_context_before := VString [];
              gr_context_after := VString [] |}
           {| up_status := 200; up_text := []; up_json := inr data |}
           123 (js "'summary':'s','points':[]}") [] []).
  - apply surjective_pairing.
  - vm_compute. left. reflexivity.
  - reflexivity.
  - reflexivity.
  - reflexivity.
Defined.

(** X14.  When the upstream response is [ok] but of no use, the handler
    answers with status 500: with the message of the failure when the
    body is not readable as JSON, with the upstream's own message when
    the body carries an error, and with "No response from API" when the
    first candidate has no first part with a non-empty text. *)
Theorem upstream_unusable_is_500 :
  forall op key upstream request_body resp log q r,
    run (POST op key upstream request_body) = (resp, log) ->
    In q log ->
    upstream q = inr r ->
    ok (up_status r) = true ->
    (forall e, up_json r = inl e ->
       resp = Val {| resp_body := ErrorBody (MessageOf e);
                     resp_status := 500 |}) /\
    (forall data m, up_json r = inr data -> error_message data = Some m ->
       resp = Val {| resp_body := ErrorBody (Literal m);
                     resp_status := 500 |}) /\
    (forall data, up_json r = inr data -> error_message data = None ->
       nonempty (resultText data) = None ->
       resp = Val {| resp_body := ErrorBody (Literal (lit "No response from API"));
                     resp_status := 500 |}).
Proof.
  intros until r.
  net_cases; intros H I U O; same_exchange H I U;
    try (rewrite O in *; discriminate);
    repeat split; intros; unfold NextResponse_json; congruence.
Qed.

Lemma upstream_unusable_is_500_witness :
  let data := {| candidates := Some [{| content_parts := [] |}];
                 error_message := None |} in
  let upstream := fun _ : generate_request =>
    (inr {| up_status := 200; up_text := []; up_json := inr data |}
     : exn + upstream_response) in
  fst (run (POST Translate (Some (lit "secret")) upstream (js "{'text':'hi'}")))
  = Val {| resp_body := ErrorBody (Literal (lit "No response from API"));
           resp_status := 500 |}.
Proof.
  intros data upstream.
  apply (proj2 (proj2
    (upstream_unusable_is_500 Translate (Some (lit "secret")) upstream
       (js "{'text':'hi'}")
       (fst (run (POST Translate (Some (lit "secret")) upstream
                    (js "{'text':'hi'}"))))
       (snd (run (POST Translate (Some (lit "secret")) upstream
                    (js "{'text':'hi'}"))))
       {| gr_operation := Translate;
          gr_model := VString default_model;
          gr_key := lit "secret";
          gr_text := VString (js "hi");
          gr_context_before := VString [];
          gr_context_after := VString [] |}
       {| up_status := 200; up_text := []; up_json := inr data |}
       (surjective_pairing _) (or_introl eq_refl) eq_refl eq_refl)) data);
    reflexivity.
Defined.

(** X15.  When the request to the upstream fails without a response
    ([fetch] rejects), the handler answers with status 500 and the
    message of that failure. *)
Theorem upstream_rejection_is_500 :
  forall op key upstream request_body resp log q e,
    run (POST op key upstream request_body) = (resp, log) ->
    In q log ->
    upstream q = inl e ->
    resp = Val {| resp_body := ErrorBody (MessageOf e); resp_status := 500 |}.
Proof.
  intros until e.
  net_cases; intros H I U; same_exchange H I U; reflexivity.
Qed.

Lemma upstream_rejection_is_500_witness :
  let upstream := fun _ : generate_request =>
    (inl TypeError : exn + upstream_response) in
  fst (run (POST Translate (Some (lit "secret")) upstream (js "{'text':'hi'}")))
  = Val {| resp_body := ErrorBody (MessageOf TypeError); resp_status := 500 |}.
Proof.
  intros upstream.
  apply (upstream_rejection_is_500 Translate (Some (lit "secret")) upstream
           (js "{'text':'hi'}")
           (fst (run (POST Translate (Some (lit "secret")) upstream
                        (js "{'text':'hi'}"))))
           (snd (run (POST Translate (Some (lit "secret")) upstream
                        (js "{'text':'hi'}"))))
           {| gr_operation := Translate;
              gr_model := VString default_model;
              gr_key := lit "secret";
              gr_text := VString (js "hi");
              gr_context_before := VString [];
              gr_context_after := VString [] |}
           TypeError).
  - apply surjective_pairing.
  - vm_compute. left. reflexivity.
  - reflexivity.
Defined.

(** ** The dispatcher, beyond the single request *)

Section DispatcherMore.

Variable b : browser.
Variable backend : api_request -> exn + api_response.
Variables (url : jsstring) (pick : GeminiSettings -> value)
          (failed : jsstring).

Lemma dispatch_request st text contextBefore contextAfter modelOverride :
  getGeminiSettings b = Val st ->
  exists outcome,
    run (dispatch b backend url pick failed
           text contextBefore contextAfter modelOverride)
    = (outcome,
       [{| api_url := url; api_text := text;
           api_contextBefore := contextBefore;
           api_contextAfter := contextAfter;
           api_model := match nonempty modelOverride with
                        | Some m => VString m
                        | None => pick st
                        end |}]).
Proof.
  intros E. run_net. rewrite E. unfold stringify_all. net_simpl.
  repeat (first
            [ match goal with
              | |- context [of_sum (?f ?q)] => destruct (f q) eqn:?; net_simpl
              end
            | inner_destruct; net_simpl ]); eauto.
Qed.

Lemma dispatch_outcome text contextBefore contextAfter modelOverride
      outcome log q :
  run (dispatch b backend url pick failed
         text contextBefore contextAfter modelOverride) = (outcome, log) ->
  In q log ->
  (forall e, backend q = inl e -> outcome = Throw e) /\
  (forall r v, backend q = inr r -> ok (api_status r) = true ->
               api_json r = inr v -> outcome = Val v) /\
  (forall r e, backend q = inr r -> api_json r = inl e -> outcome = Throw e) /\
  (forall r, backend q = inr r -> ok (api_status r) = false ->
             api_json r = inr VNull -> outcome = Throw TypeError) /\
  (forall r body err, backend q = inr r -> ok (api_status r) = false ->
             api_json r = inr body -> body <> VNull ->
             get_prop body (lit "error") = Val err -> truthy err = false ->
             outcome = Throw (Error (VString failed))).
Proof.
  destruct (getGeminiSettings_total b) as [st E].
  run_net. rewrite E. unfold stringify_all. net_simpl.
  repeat (first
            [ match goal with
              | |- context [of_sum (?f ?q)] => destruct (f q) eqn:?; net_simpl
              end
            | inner_destruct; net_simpl ]);
    intros H I; inv H; simpl in I; try contradiction; destruct I as [<-|[]];
    repeat split; intros;
    repeat match goal with
      | A : backend ?x = _, B : backend ?x = _ |- _ =>
          rewrite A in B; inv B
      | A : api_json ?x = _, B : api_json ?x = _ |- _ =>
          rewrite A in B; inv B
      | A : get_prop ?x ?k = _, B : get_prop ?x ?k = _ |- _ =>
          rewrite A in B; inv B
      | A : ok ?x = _, B : negb (ok ?x) = _ |- _ =>
          rewrite A in B; simpl in B
      end;
    try discriminate; try reflexivity; try congruence.
  all: try (exfalso; no_fuel).
  all: unfold or_default in *;
    repeat match goal with
      | A : truthy ?x = false |- _ => rewrite A in *
      end;
    simpl in *; try discriminate; try reflexivity; try congruence.
  all: match goal with
       | A : truthy ?x = false |- _ => destruct x
       end; simpl in *; try discriminate; reflexivity.
Qed.

End DispatcherMore.

(** X16.  The model that the dispatcher puts into the body it serializes
    is the override when that is a non-empty string; otherwise it is the
    model that [getGeminiSettings] gives, the [model] setting for
    [translateWithGemini] and the [explanationModel] setting for
    [explainDirectly].  When that model is a string, it is not empty. *)
Theorem dispatcher_model_resolution :
  forall b backend text contextBefore contextAfter modelOverride,
  exists st o1 o2 m1 m2,
    getGeminiSettings b = Val st /\
    run (translateWithGemini b backend
           text contextBefore contextAfter modelOverride)
    = (o1, [{| api_url := lit "/api/gemini/translate"; api_text := text;
               api_contextBefore := contextBefore;
               api_contextAfter := contextAfter; api_model := m1 |}]) /\
    run (explainDirectly b backend
           text contextBefore contextAfter modelOverride)
    = (o2, [{| api_url := lit "/api/gemini/explain"; api_text := text;
               api_contextBefore := contextBefore;
               api_contextAfter := contextAfter; api_model := m2 |}]) /\
    (forall c m, modelOverride = Some (c :: m) ->
                 m1 = VString (c :: m) /\ m2 = VString (c :: m)) /\
    (modelOverride = None \/ modelOverride = Some [] ->
     m1 = s_model st /\ m2 = s_explanationModel st) /\
    (forall s, m1 = VString s -> s <> []) /\
    (forall s, m2 = VString s -> s <> []).
Proof.
  intros. destruct (getGeminiSettings_truthy b) as (st & E & _ & T1 & T2).
  destruct (dispatch_request b backend (lit "/api/gemini/translate") s_model
              (lit "Translation failed") st text contextBefore contextAfter
              modelOverride E) as [o1 R1].
  destruct (dispatch_request b backend (lit "/api/gemini/explain")
              s_explanationModel (lit "Explanation failed") st text
              contextBefore contextAfter modelOverride E) as [o2 R2].
  exists st, o1, o2. eexists. eexists.
  split; [exact E|]. split; [exact R1|]. split; [exact R2|].
  assert (forall v s, truthy (Some v) = true -> v = VString s -> s <> [])
    as S by (intros v s T -> ->; discriminate).
  destruct modelOverride as [[|c m]|]; simpl.
  - split; [discriminate|]. split; [intros _; split; reflexivity|].
    split; intros s; [apply (S _ _ T1)|apply (S _ _ T2)].
  - split; [intros c0 m0 H; inv H; split; reflexivity|].
    split; [intros [H|H]; discriminate|].
    split; intros s H; inv H; discriminate.
  - split; [discriminate|]. split; [intros _; split; reflexivity|].
    split; intros s; [apply (S _ _ T1)|apply (S _ _ T2)].
Qed.

Lemma dispatcher_model_resolution_witness :
  exists o,
    run (explainDirectly
           {| has_window := true;
              stored_settings :=
                inr (Some (js "{'model':'gemini-2.5-pro','explanationModel':''}")) |}
           (fun _ => inl TypeError) (js "word") [] [] (Some []))
    = (o, [{| api_url := lit "/api/gemini/explain"; api_text := js "word";
              api_contextBefore := []; api_contextAfter := [];
              api_model := VString (lit "gemini-2.0-flash") |}]).
Proof.
  destruct (dispatcher_model_resolution
              {| has_window := true;
                 stored_settings :=
                   inr (Some (js "{'model':'gemini-2.5-pro','explanationModel':''}")) |}
              (fun _ => inl TypeError) (js "word") [] [] (Some []))
    as (st & o1 & o2 & m1 & m2 & E & _ & R & _ & D & _).
  destruct (D (or_intror eq_refl)) as [_ ->] in R.
  assert (st = {| s_apiKey := [];
                  s_model := VString (js "gemini-2.5-pro");
                  s_explanationModel := VString (lit "gemini-2.0-flash") |})
    as -> by (vm_compute in E; injection E as <-; reflexivity).
  exists o2. exact R.
Defined.

(** X17.  The dispatcher hands back what the backend said: the JSON body
    of an [ok] response is returned as it is, and a request that fails
    without a response, or a body that cannot be read as JSON, makes the
    dispatcher throw that very failure. *)
Theorem dispatcher_returns_backend_body :
  forall b backend text contextBefore contextAfter modelOverride,
    (forall outcome log q,
        run (translateWithGemini b backend
               text contextBefore contextAfter modelOverride)
          = (outcome, log) ->
        In q log ->
        (forall e, backend q = inl e -> outcome = Throw e) /\
        (forall r v, backend q = inr r -> ok (api_status r) = true ->
                     api_json r = inr v -> outcome = Val v) /\
        (forall r e, backend q = inr r -> api_json r = inl e ->
                     outcome = Throw e)) /\
    (forall outcome log q,
        run (explainDirectly b backend
               text contextBefore contextAfter modelOverride)
          = (outcome, log) ->
        In q log ->
        (forall e, backend q = inl e -> outcome = Throw e) /\
        (forall r v, backend q = inr r -> ok (api_status r) = true ->
                     api_json r = inr v -> outcome = Val v) /\
        (forall r e, backend q = inr r -> api_json r = inl e ->
                     outcome = Throw e)).
Proof.
  intros. split; intros outcome log q R I;
    destruct (dispatch_outcome _ _ _ _ _ _ _ _ _ _ _ _ R I)
      as (A & B & C & _); auto.
Qed.

Lemma dispatcher_returns_backend_body_witness :
  let r := {| api_status := 200;
              api_json := inr (VObject [(lit "translation", VNull)]) |} in
  fst (run (translateWithGemini
              {| has_window := false; stored_settings := inr None |}
              (fun _ => inr r) (js "word") [] [] None))
  = Val (VObject [(lit "translation", VNull)]).
Proof.
  intros r.
  set (b := {| has_window := false; stored_settings := inr None |}).
  set (backend := fun _ : api_request => (inr r : exn + api_response)).
  destruct (proj1 (dispatcher_returns_backend_body b backend (js "word")
                     [] [] None)
              (fst (run (translateWithGemini b backend (js "word") [] [] None)))
              (snd (run (translateWithGemini b backend (js "word") [] [] None)))
              {| api_url := lit "/api/gemini/translate";
                 api_text := js "word"; api_contextBefore := [];
                 api_contextAfter := [];
                 api_model := VString (lit "gemini-2.0-flash") |})
    as (_ & B & _).
  - apply surjective_pairing.
  - vm_compute. left. reflexivity.
  - apply (B r); reflexivity.
Defined.

(** X18.  When the backend's response is not [ok] and its JSON body has
    no [error], or a falsy one, the dispatcher throws an Error with its
    own message: "Translation failed" from [translateWithGemini],
    "Explanation failed" from [explainDirectly].  A body that is [null]
    makes it throw a TypeError. *)
Theorem dispatcher_default_failure_message :
  forall b backend text contextBefore contextAfter modelOverride,
    (forall outcome log q r body,
        run (translateWithGemini b backend
               text contextBefore contextAfter modelOverride)
          = (outcome, log) ->
        In q log ->
        backend q = inr r -> ok (api_status r) = false ->
        api_json r = inr body ->
        (body = VNull -> outcome = Throw TypeError) /\
        (forall err, body <> VNull ->
           get_prop body (lit "error") = Val err -> truthy err = false ->
           outcome = Throw (Error (VString (lit "Translation failed"))))) /\
    (forall outcome log q r body,
        run (explainDirectly b backend
               text contextBefore contextAfter modelOverride)
          = (outcome, log) ->
        In q log ->
        backend q = inr r -> ok (api_status r) = false ->
        api_json r = inr body ->
        (body = VNull -> outcome = Throw TypeError) /\
        (forall err, body <> VNull ->
           get_prop body (lit "error") = Val err -> truthy err = false ->
           outcome = Throw (Error (VString (lit "Explanation failed"))))).
Proof.
  intros. split; intros outcome log q r body R I Bq O J;
    destruct (dispatch_outcome _ _ _ _ _ _ _ _ _ _ _ _ R I)
      as (_ & _ & _ & C & D);
    (split; [intros ->; eauto|intros; eauto]).
Qed.

Lemma dispatcher_default_failure_message_witness :
  let r := {| api_status := 502; api_json := inr (VObject []) |} in
  fst (run (explainDirectly
              {| has_window := false; stored_settings := inr None |}
              (fun _ => inr r) (js "word") [] [] None))
  = Throw (Error (VString (lit "Explanation failed"))).
Proof.
  intros r.
  set (b := {| has_window := false; stored_settings := inr None |}).
  set (backend := fun _ : api_request => (inr r : exn + api_response)).
  destruct (proj2 (dispatcher_default_failure_message b backend (js "word")
                     [] [] None)
              (fst (run (explainDirectly b backend (js "word") [] [] None)))
              (snd (run (explainDirectly b backend (js "word") [] [] None)))
              {| api_url := lit "/api/gemini/explain";
                 api_text := js "word"; api_contextBefore := [];
                 api_contextAfter := [];
                 api_model := VString (lit "gemini-2.0-flash") |}
              r (VObject []))
    as [_ D].
  - apply surjective_pairing.
  - vm_compute. left. reflexivity.
  - reflexivity.
  - reflexivity.
  - reflexivity.
  - apply (D None); [discriminate|reflexivity|reflexivity].
Defined.

(** ** The context menu: when nothing happens *)

(** X19.  [handleContextMenu] leaves the event and the position as they
    are when there is no selection, when the selection is collapsed, when
    its text is blank, and when its first range lies outside the viewer
    element or there is no viewer element.  Conversely, whenever it
    returns, either nothing changed or the default action was prevented
    and the position is the client coordinates of the event. *)
Theorem handleContextMenu_ignores_other_selections :
  forall (number_t node : Type) (pg : page node) (e : MouseEvent number_t)
         (contextMenuPosition : option (ContextMenuPosition number_t)),
    (getSelection node pg = None \/
     (exists sel,
         getSelection node pg = Some sel /\
         (isCollapsed node sel = true \/
          trim (toString node sel) = [] \/
          exists rg,
            nth_error (ranges node sel) 0 = Some rg /\
            (pdf_viewer_container node pg = None \/
             exists pdfViewer,
               pdf_viewer_container node pg = Some pdfViewer /\
               contains node pg pdfViewer (commonAncestorContainer node rg)
               = false))) ->
     handleContextMenu pg e contextMenuPosition
     = Val (e, contextMenuPosition)) /\
    (forall e' position',
        handleContextMenu pg e contextMenuPosition = Val (e', position') ->
        (e' = e /\ position' = contextMenuPosition) \/
        (e' = preventDefault number_t e /\
         position' = Some {| pos_x := clientX number_t e;
                             pos_y := clientY number_t e |})).
Proof.
  intros. split.
  - unfold handleContextMenu.
    intros [S | (sel & S & [C | [T | (rg & R & [V | (v & V & I)])]])];
      rewrite S; try reflexivity.
    + rewrite C. reflexivity.
    + destruct (isCollapsed node sel); [reflexivity|]. rewrite T. reflexivity.
    + destruct (isCollapsed node sel); [reflexivity|].
      destruct (trim (toString node sel)); [reflexivity|].
      rewrite R, V. reflexivity.
    + destruct (isCollapsed node sel); [reflexivity|].
      destruct (trim (toString node sel)); [reflexivity|].
      rewrite R, V, I. reflexivity.
  - unfold handleContextMenu. intros e' position'.
    repeat (inner_destruct; simpl); intros H; inv H; auto.
Qed.

Lemma handleContextMenu_ignores_other_selections_witness :
  let sel := {| isCollapsed := false; toString := js "word";
                ranges := [{| commonAncestorContainer := 0%nat |}] |} in
  let pg := {| getSelection := Some sel; pdf_viewer_container := Some 1%nat;
               contains := fun a c => Nat.leb a c |} in
  let e := {| clientX := 120%Z; clientY := 45%Z; defaultPrevented := false |} in
  handleContextMenu pg e None = Val (e, None).
Proof.
  intros sel pg e.
  apply (proj1 (handleContextMenu_ignores_other_selections Z nat pg e None)).
  right. exists sel. split; [reflexivity|].
  right. right. exists {| commonAncestorContainer := 0%nat |}.
  split; [reflexivity|]. right. exists 1%nat. split; reflexivity.
Defined.

(** ** Zoom *)

Lemma SFltb_SFleb x y : SFltb x y = true -> SFleb x y = true.
Proof.
  unfold SFltb, SFleb. destruct (SFcompare x y) as [[]|]; congruence.
Qed.

Lemma SFcompare_Eq x y :
  SFcompare x y = Some Eq ->
  x = y \/ exists s1 s2, x = S754_zero s1 /\ y = S754_zero s2.
Proof.
  destruct x as [s1|s1| |s1 m1 e1], y as [s2|s2| |s2 m2 e2]; simpl;
    intros H; try discriminate; eauto;
    try (destruct s1; discriminate); try (destruct s2; discriminate);
    left.
  - destruct s1, s2; try discriminate; reflexivity.
  - destruct s1, s2; try discriminate;
      destruct (Z.compare_spec e1 e2); try discriminate; subst;
      injection H as H;
      try (apply (f_equal CompOpp) in H; rewrite CompOpp_involutive in H;
           simpl in H);
      apply Pos.compare_eq in H; subst; reflexivity.
Qed.

Lemma SFleb_not_SFltb x y :
  SFleb x y = true -> SFltb x y = false -> SFcompare x y = Some Eq.
Proof.
  unfold SFltb, SFleb. destruct (SFcompare x y) as [[]|]; congruence.
Qed.

Lemma Math_min_finite s m e z :
  z <> S754_nan ->
  Math_min (S754_finite s m e) z
  = if SFltb z (S754_finite s m e) then z else S754_finite s m e.
Proof. destruct z; try reflexivity. contradiction. Qed.

Lemma Math_max_finite s m e z :
  z <> S754_nan ->
  Math_max (S754_finite s m e) z
  = if SFltb (S754_finite s m e) z then z else S754_finite s m e.
Proof. destruct z; try reflexivity. contradiction. Qed.

Lemma SFleb_not_nan x y : SFleb x y = true -> x <> S754_nan /\ y <> S754_nan.
Proof.
  destruct x, y; try discriminate; split; discriminate.
Qed.

Lemma clampZoom_eq z :
  z <> S754_nan ->
  clampZoom z =
  if SFltb ZOOM_min (if SFltb z ZOOM_max then z else ZOOM_max)
  then (if SFltb z ZOOM_max then z else ZOOM_max)
  else ZOOM_min.
Proof.
  intros N. unfold clampZoom.
  assert (Math_min ZOOM_max z = if SFltb z ZOOM_max then z else ZOOM_max) as ->
      by (apply Math_min_finite; exact N).
  apply Math_max_finite. destruct (SFltb z ZOOM_max); [exact N|discriminate].
Qed.

(** X20.  [clampZoom] maps every number other than NaN into the range
    from 0.25 to 4, leaves the numbers of that range as they are, and is
    idempotent; NaN stays NaN. *)
Theorem clampZoom_clamps : forall zoom,
  (zoom <> S754_nan ->
   SFleb ZOOM_min (clampZoom zoom) = true /\
   SFleb (clampZoom zoom) ZOOM_max = true) /\
  (SFleb ZOOM_min zoom = true -> SFleb zoom ZOOM_max = true ->
   clampZoom zoom = zoom) /\
  clampZoom (clampZoom zoom) = clampZoom zoom /\
  clampZoom S754_nan = S754_nan.
Proof.
  intros zoom.
  assert (forall z, z <> S754_nan ->
            SFleb ZOOM_min (clampZoom z) = true /\
            SFleb (clampZoom z) ZOOM_max = true) as R.
  { intros z N. rewrite (clampZoom_eq z N).
    destruct (SFltb z ZOOM_max) eqn:L1;
      match goal with
      | |- context [SFltb ZOOM_min ?w] => destruct (SFltb ZOOM_min w) eqn:L2
      end; split; try reflexivity; now apply SFltb_SFleb. }
  assert (forall z, SFleb ZOOM_min z = true -> SFleb z ZOOM_max = true ->
                    clampZoom z = z) as I.
  { intros z A B. destruct (SFleb_not_nan _ _ B) as [N _].
    rewrite (clampZoom_eq z N).
    assert ((if SFltb z ZOOM_max then z else ZOOM_max) = z) as ->.
    { destruct (SFltb z ZOOM_max) eqn:L; [reflexivity|].
      destruct (SFcompare_Eq _ _ (SFleb_not_SFltb _ _ B L))
        as [E|(? & ? & ? & E)]; [symmetry; exact E|discriminate]. }
    destruct (SFltb ZOOM_min z) eqn:L; [reflexivity|].
    destruct (SFcompare_Eq _ _ (SFleb_not_SFltb _ _ A L))
      as [E|(? & ? & E & _)]; [exact E|discriminate]. }
  split; [apply R|]. split; [apply I|]. split; [|reflexivity].
  destruct zoom as [s|s| |s m e]; try reflexivity;
    apply I; apply R; discriminate.
Qed.

Lemma clampZoom_clamps_witness :
  SFleb ZOOM_min (clampZoom (S754_infinity false)) = true /\
  SFleb (clampZoom (S754_infinity false)) ZOOM_max = true.
Proof.
  apply (proj1 (clampZoom_clamps (S754_infinity false))). discriminate.
Defined.

(** X21.  On the quarter steps from 0.25 to 4 (the default, 1, is one of
    them) the zoom moves exactly one step: [zoomIn] goes to the next
    quarter and stays at 4, [zoomOut] goes to the previous quarter and
    stays at 0.25, so the zoom never leaves these sixteen levels. *)
Theorem zoom_moves_by_quarters : forall k,
  (1 <= k <= 16)%Z ->
  zoomIn (quarters k) = quarters (Z.min (k + 1) 16) /\
  zoomOut (quarters k) = quarters (Z.max (k - 1) 1) /\
  clampZoom (quarters k) = quarters k /\
  resetZoom = quarters 4 /\
  ZOOM_min = quarters 1 /\ ZOOM_max = quarters 16.
Proof.
  intros k H.
  assert (k = 1 \/ k = 2 \/ k = 3 \/ k = 4 \/ k = 5 \/ k = 6 \/ k = 7 \/
          k = 8 \/ k = 9 \/ k = 10 \/ k = 11 \/ k = 12 \/ k = 13 \/
          k = 14 \/ k = 15 \/ k = 16)%Z as K by lia.
  repeat (destruct K as [->|K]; [vm_compute; repeat split|]).
  subst. vm_compute. repeat split.
Qed.

Lemma zoom_moves_by_quarters_witness :
  zoomIn (quarters 15) = quarters 16 /\ zoomOut (quarters 15) = quarters 14.
Proof.
  destruct (zoom_moves_by_quarters 15) as (A & B & _); [lia|].
  split; [exact A|exact B].
Defined.
